(** * deSEC provider of dnscontrol: the reconciliation logic

    A shallow embedding of [providers/desec/desecProvider.go]: provider
    construction, the domain existence gate, the capability normaliser and
    the correction planner, with the properties the specification states
    about them.

    Conventions of the embedding.
    - Go's [error] is [option string]: [None] is [nil], [Some msg] an error
      carrying [msg].
    - A Go [map] is a [gmap]; a lookup of a missing [string] key yields the
      zero value [""], as in Go.
    - [uint32] TTLs are [N]; the source only compares and assigns them.
    - A slice is a [list]; the [nil] slice is [[]].
    - Remote calls act on an abstract remote state and are recorded, in
      order, in a log of [api_call]s.
    - A function literal is a [Closure]: a value that names what the
      literal captured.  Go captures variables, not values, so a captured
      variable that the enclosing function keeps assigning is a location
      in a store, read when the closure runs. *)

From Stdlib Require Import NArith List Lia.
From stdpp Require Import base option list gmap strings pretty.

(** ** Data model *)

(** [models.RecordKey]: the key of a change group. *)
Record RecordKey : Type := mkKey {
  NameFQDN : string;
  KType : string
}.

(** [models.RecordConfig], restricted to the fields this file reads or
    writes: [GetLabelFQDN()] returns [rNameFQDN].  [rTarget] stands for
    the type-specific value fields of the specification's generic
    record; the source of this file never reads it. *)
Record RecordConfig : Type := mkRec {
  rNameFQDN : string;
  rType : string;
  rTTL : N;
  rTarget : string
}.

(** [models.DomainConfig], restricted to [Name] and [Records]. *)
Record DomainConfig : Type := mkDC {
  Name : string;
  Records : list RecordConfig
}.

(** [resourceRecord], the provider's native record set, declared in
    another file of the package.  The source sets [Type], [Subname] and
    [Records]; the TTL is the one of the specification's native record
    set, and is zero in a record built without it. *)
Record resourceRecord : Type := mkRR {
  Subname : string;
  Type_ : string;
  RRecords : list string;
  TTL : N
}.

(** [rec.Key()]. *)
Definition Key (r : RecordConfig) : RecordKey :=
  {| NameFQDN := rNameFQDN r; KType := rType r |}.

#[global] Instance RecordKey_eq_dec : EqDecision RecordKey.
Proof. solve_decision. Defined.

#[global] Instance RecordKey_countable : Countable RecordKey.
Proof.
  refine (inj_countable' (fun k => (NameFQDN k, KType k))
                         (fun p => mkKey p.1 p.2) _).
  by intros [].
Defined.

#[global] Instance RecordConfig_eq_dec : EqDecision RecordConfig.
Proof. solve_decision. Defined.

#[global] Instance resourceRecord_eq_dec : EqDecision resourceRecord.
Proof. solve_decision. Defined.

(** The line feed that ends the warning formats. *)
Definition LF : string := String (Ascii.Ascii false true false true false false false false) "".

(** The zero value of [RecordKey], held by a declared variable before
    its first assignment. *)
#[global] Instance RecordKey_inhabited : Inhabited RecordKey :=
  populate {| NameFQDN := ""; KType := "" |}.

(** The [api] receiver: the credential and the cached domain index.  The
    value type of [domainIndex] is declared outside this file and only
    membership is consulted here. *)
Record api (DomainInfo : Type) : Type := mkApi {
  creds_token : string;
  domainIndex : gmap string DomainInfo
}.
Arguments mkApi {DomainInfo} _ _.
Arguments creds_token {DomainInfo} _.
Arguments domainIndex {DomainInfo} _.

(** The requests the provider can send to the remote API. *)
Inductive api_call : Type :=
  | CallFetchDomainList
  | CallCreateDomain (domain : string)
  | CallGetRecords (domain : string)
  | CallDeleteRR (rc : resourceRecord) (domain : string)
  | CallUpsertRR (rc : resourceRecord) (domain : string).

(** The remote side as the provider sees it: its state and the requests
    sent so far, oldest first. *)
Record World (Remote : Type) : Type := mkWorld {
  remote : Remote;
  calls : list api_call
}.
Arguments mkWorld {Remote} _ _.
Arguments remote {Remote} _.
Arguments calls {Remote} _.

(** A Go call either returns or panics. *)
Inductive outcome (A : Type) : Type :=
  | Returned (a : A)
  | Panicked (msg : string).
Arguments Returned {A} _.
Arguments Panicked {A} _.

(** Locations of captured variables, and the store that holds them. *)
Definition loc : Type := positive.

(** The three function literals of [GenerateDomainCorrections].
    - [DeleteClosure] (lines 167-183) captures the range variable
      [label] and [dc].  [label] is the variable of the [for ... range]
      statement: this module is version 3 of dnscontrol, built with a Go
      older than 1.22, where that statement declares one variable for the
      whole loop and every iteration assigns to it.  The closure holds
      its location.
    - [UpsertClosure] (lines 207-214) captures [ns] and [dc]; [ns] is
      declared inside the loop body, one variable per iteration, and is
      never assigned again, so the closure is given its value.
    - [NoopClosure] (lines 190-192 and 221-223) captures nothing.
    [dc] is not written after the closures are built; they are given its
    value. *)
Inductive Closure : Type :=
  | DeleteClosure (label : loc) (dc : DomainConfig)
  | UpsertClosure (ns : list resourceRecord) (dc : DomainConfig)
  | NoopClosure.

(** [models.Correction]. *)
Record Correction : Type := mkCorrection {
  Msg : string;
  F : Closure
}.

(** [PrepFoundRecords]: returns its argument. *)
Definition PrepFoundRecords (recs : list RecordConfig) : list RecordConfig :=
  recs.

(** The two warning texts of [PrepDesiredRecords], as [printer.Warnf]
    renders them. *)
Definition alias_warning : string :=
  "deSEC does not support alias records" +:+ LF.

Definition ttl_warning (rec : RecordConfig) : string :=
  "deSEC does not support ttls < 3600. Setting ttl of " +:+ rNameFQDN rec
  +:+ " type " +:+ rType rec +:+ " from " +:+ pretty (rTTL rec)
  +:+ " to 3600" +:+ LF.

(** [rec.TTL = 3600]. *)
Definition set_TTL (rec : RecordConfig) (ttl : N) : RecordConfig :=
  {| rNameFQDN := rNameFQDN rec; rType := rType rec; rTTL := ttl;
     rTarget := rTarget rec |}.

(** [for i, msg := range keysToUpdate[label]] of the deletion branch
    (lines 161-195), appending to [corrections]. *)
Fixpoint delete_messages (label : loc) (dc : DomainConfig) (i : nat)
    (msgs : list string) (corrections : list Correction) : list Correction :=
  match msgs with
  | [] => corrections
  | msg :: rest =>
      let corrections :=
        if decide (i = 0)
        then corrections ++ [{| Msg := msg; F := DeleteClosure label dc |}]
        else corrections ++ [{| Msg := msg; F := NoopClosure |}] in
      delete_messages label dc (S i) rest corrections
  end.

(** [for i, msg := range keysToUpdate[label]] of the upsert branch
    (lines 202-226). *)
Fixpoint upsert_messages (ns : list resourceRecord) (dc : DomainConfig)
    (i : nat) (msgs : list string) (corrections : list Correction)
    : list Correction :=
  match msgs with
  | [] => corrections
  | msg :: rest =>
      let corrections :=
        if decide (i = 0)
        then corrections ++ [{| Msg := msg; F := UpsertClosure ns dc |}]
        else corrections ++ [{| Msg := msg; F := NoopClosure |}] in
      upsert_messages ns dc (S i) rest corrections
  end.

(** What [for label := range keysToUpdate] may yield: every key of the
    map once, in an order the language leaves open. *)
Definition range_order (keysToUpdate : gmap RecordKey (list string))
    (order : list RecordKey) : Prop :=
  order ≡ₚ (map_to_list keysToUpdate).*1.

(** ** Collaborators that are not part of this file

    The functions below come from the rest of the repository or from
    libraries.  The provider is defined over arbitrary ones (section
    [Provider]); the definitions here either follow the specification or
    are small instances on which the provider can be evaluated. *)

(** Modelled from the spec: [Records.GroupedByKey], which is declared in
    the [models] package and not in this file.  "Group the desired record
    set by (label, type) key": every record joins, in order, the group of
    its own key. *)
Definition GroupedByKey_spec (recs : list RecordConfig)
    : gmap RecordKey (list RecordConfig) :=
  fold_left (fun groups rec => <[Key rec := groups !!! Key rec ++ [rec]]> groups)
            recs ∅.

(** Modelled from the spec: one step of [recordsToNative], which is
    declared in another file of the provider.  "Coalesce all generic
    records sharing a label+type into exactly one native record set": a
    record whose key already has a record set adds its value to it, any
    other record opens a record set of its own, with the subname given by
    the label translation of section 4.3 and the record's TTL. *)
Fixpoint coalesce (trim : string → string → string) (origin : string)
    (rec : RecordConfig) (zrs : list (RecordKey * resourceRecord))
    : list (RecordKey * resourceRecord) :=
  match zrs with
  | [] =>
      let shortname := trim (rNameFQDN rec) origin in
      [(Key rec,
        {| Subname := if decide (shortname = "@") then "" else shortname;
           Type_ := rType rec;
           RRecords := [rTarget rec];
           TTL := rTTL rec |})]
  | (key, zr) :: rest =>
      if decide (key = Key rec)
      then (key, {| Subname := Subname zr; Type_ := Type_ zr;
                    RRecords := RRecords zr ++ [rTarget rec];
                    TTL := TTL zr |}) :: rest
      else (key, zr) :: coalesce trim origin rec rest
  end.

(** Modelled from the spec: [recordsToNative], declared in another file
    of the provider; the native record sets of a record list, one per
    key, in order of first appearance. *)
Definition recordsToNative_spec (trim : string → string → string)
    (rcs : list RecordConfig) (origin : string) : list resourceRecord :=
  (fold_left (fun zrs rec => coalesce trim origin rec zrs) rcs []).*2.

(** An instance of [dnsutil.TrimDomainName] on names written without a
    trailing dot: the apex gives ["@"], a name under [origin] loses
    ["." ++ origin], any other name is returned as it is. *)
Definition TrimDomainName_ref (s origin : string) : string :=
  if String.eqb s origin then "@"
  else
    let n := String.length s - String.length origin - 1 in
    if String.eqb (String.substring n (S (String.length origin)) s) ("." +:+ origin)
    then String.substring 0 n s
    else s.

(** A converter that breaks the one-record-set-per-key rule: one record
    set per record. *)
Definition recordsToNative_split (rcs : list RecordConfig) (origin : string)
    : list resourceRecord :=
  (fun rec => {| Subname := TrimDomainName_ref (rNameFQDN rec) origin;
                 Type_ := rType rec;
                 RRecords := [rTarget rec];
                 TTL := rTTL rec |}) <$> rcs.

(** A remote side that holds a list of domain names and answers every
    request: listing reports the names it holds, creation adds one.
    [createDomain_refusing] is a remote side that refuses creation. *)
Definition fetchDomainList_ref (r : list string)
    : gmap string N * option string * list string :=
  (list_to_map ((fun d => (d, 3600%N)) <$> r), None, r).

Definition createDomain_ref (domain : string) (r : list string)
    : option string * list string :=
  (None, domain :: r).

Definition createDomain_refusing (domain : string) (r : list string)
    : option string * list string :=
  (Some "403 Forbidden", r).

Definition writeRR_ref (rc : resourceRecord) (domain : string)
    (r : list string) : option string * list string :=
  (None, r).

Definition getRecords_ref (domain : string) (r : list string)
    : list resourceRecord * option string * list string :=
  ([], None, r).

(** ** Example inputs *)

Definition key_a : RecordKey := {| NameFQDN := "a.example.com"; KType := "A" |}.
Definition key_b : RecordKey := {| NameFQDN := "b.example.com"; KType := "TXT" |}.
Definition key_apex : RecordKey := {| NameFQDN := "example.com"; KType := "MX" |}.

(** A diff that reports two groups, both gone from the desired set. *)
Definition two_deleted_groups : gmap RecordKey (list string) :=
  <[key_a := ["DELETE A a.example.com 1.2.3.4"; "DELETE A a.example.com 5.6.7.8"]]>
  (<[key_b := ["DELETE TXT b.example.com hello"]]> ∅).

(** A diff that reports the apex group and another group, both gone from
    the desired set. *)
Definition apex_and_b_deleted : gmap RecordKey (list string) :=
  <[key_apex := ["DELETE MX example.com 10 mail.example.net."]]>
  (<[key_b := ["DELETE TXT b.example.com hello"]]> ∅).

(** A diff that reports one group, which the desired set holds. *)
Definition one_created_group : gmap RecordKey (list string) :=
  <[key_a := ["CREATE A a.example.com 1.2.3.4"; "CREATE A a.example.com 5.6.7.8"]]> ∅.

(** A zone with no desired record. *)
Definition empty_config : DomainConfig :=
  {| Name := "example.com"; Records := [] |}.

(** A zone with two values under one key. *)
Definition two_values_config : DomainConfig :=
  {| Name := "example.com";
     Records := [ {| rNameFQDN := "a.example.com"; rType := "A";
                     rTTL := 3600; rTarget := "1.2.3.4" |};
                  {| rNameFQDN := "a.example.com"; rType := "A";
                     rTTL := 3600; rTarget := "5.6.7.8" |} ] |}.

(** A zone with an NS record below the TTL floor. *)
Definition ns_config : DomainConfig :=
  {| Name := "example.com";
     Records := [ {| rNameFQDN := "example.com"; rType := "NS";
                     rTTL := 300; rTarget := "ns1.desec.io." |} ] |}.

(** A zone with an NS record and an A record below the floor, an ALIAS
    record, and an A record above the floor. *)
Definition mixed_config : DomainConfig :=
  {| Name := "example.com";
     Records := [ {| rNameFQDN := "example.com"; rType := "NS";
                     rTTL := 300; rTarget := "ns1.desec.io." |};
                  {| rNameFQDN := "example.com"; rType := "ALIAS";
                     rTTL := 300; rTarget := "lb.example.net." |};
                  {| rNameFQDN := "a.example.com"; rType := "A";
                     rTTL := 60; rTarget := "1.2.3.4" |};
                  {| rNameFQDN := "b.example.com"; rType := "A";
                     rTTL := 7200; rTarget := "5.6.7.8" |} ] |}.

(** A remote side that holds one domain and has received no request. *)
Definition one_domain_world : World (list string) :=
  {| remote := ["example.com"]; calls := [] |}.

(** ** Further instances and inputs *)

#[global] Instance DomainConfig_eq_dec : EqDecision DomainConfig.
Proof. solve_decision. Defined.

#[global] Instance Closure_eq_dec : EqDecision Closure.
Proof. solve_decision. Defined.

(** A remote side that rejects the credential. *)
Definition fetchDomainList_failing (r : list string)
    : gmap string N * option string * list string :=
  (∅, Some "401 Unauthorized", r).

(** A remote side that does not know the zone. *)
Definition getRecords_failing (domain : string) (r : list string)
    : list resourceRecord * option string * list string :=
  ([], Some "404 Not Found", r).

(** A remote zone with two record sets: two values at the apex and one
    value under [www]. *)
Definition getRecords_two_sets (domain : string) (r : list string)
    : list resourceRecord * option string * list string :=
  ([ {| Subname := ""; Type_ := "A"; RRecords := ["1.2.3.4"; "5.6.7.8"];
        TTL := 3600 |};
     {| Subname := "www"; Type_ := "TXT"; RRecords := ["hello"];
        TTL := 7200 |} ],
   None, r).

(** An instance of [nativeToRecords]: one generic record per value,
    labelled with the subname under the zone, and with the zone itself
    for the empty subname. *)
Definition nativeToRecords_ref (n : resourceRecord) (origin : string)
    : list RecordConfig :=
  (fun value =>
     {| rNameFQDN := if decide (Subname n = "") then origin
                     else Subname n +:+ "." +:+ origin;
        rType := Type_ n; rTTL := TTL n; rTarget := value |})
  <$> RRecords n.

(** Two zones, each with one ALIAS record; the two records differ in
    label and in target. *)
Definition alias_config_a : DomainConfig :=
  {| Name := "example.com";
     Records := [ {| rNameFQDN := "example.com"; rType := "ALIAS";
                     rTTL := 3600; rTarget := "lb.example.net." |} ] |}.

Definition alias_config_b : DomainConfig :=
  {| Name := "example.com";
     Records := [ {| rNameFQDN := "shop.example.com"; rType := "ALIAS";
                     rTTL := 3600; rTarget := "cdn.example.org." |} ] |}.

(** A converter that yields no record set. *)
Definition recordsToNative_none (rcs : list RecordConfig) (origin : string)
    : list resourceRecord :=
  [].

(** A diff that reports the apex group alone, with two messages. *)
Definition apex_deleted : gmap RecordKey (list string) :=
  {[ key_apex := ["DELETE MX example.com 10 mail.example.net.";
                  "DELETE MX example.com 20 backup.example.net."] ]}.

(** A diff that reports [key_a] alone, with two messages. *)
Definition key_a_changed : gmap RecordKey (list string) :=
  {[ key_a := ["MODIFY A a.example.com 1.2.3.4";
               "CREATE A a.example.com 5.6.7.8"] ]}.

(** ** One record, one key at a time

    The loops of the provider, read one element at a time; the lemmas of
    the next section show that the loops compute exactly these. *)

(** The record the loop of [PrepDesiredRecords] keeps for [rec], if it
    keeps one. *)
Definition kept_record (rec : RecordConfig) : option RecordConfig :=
  if decide (rType rec = "ALIAS") then None
  else if (rTTL rec <? 3600)%N then Some (set_TTL rec 3600)
  else Some rec.

(** The warnings the loop of [PrepDesiredRecords] prints for [rec]. *)
Definition record_warnings (rec : RecordConfig) : list string :=
  if decide (rType rec = "ALIAS") then [alias_warning]
  else if (rTTL rec <? 3600)%N then
    if decide (rType rec ≠ "NS") then [ttl_warning rec] else []
  else [].

(** The corrections an inner loop appends for the messages of one key:
    the first message with the action [first], the others with a no-op
    action. *)
Definition first_then_noops (first : Closure) (msgs : list string)
    : list Correction :=
  match msgs with
  | [] => []
  | msg :: rest =>
      {| Msg := msg; F := first |}
      :: ((fun m => {| Msg := m; F := NoopClosure |}) <$> rest)
  end.

(** ** The provider *)

Section Provider.

Set Default Proof Using "Type".

(** The state of the remote API, and the value type of the domain
    index. *)
Context {Remote : Type} {DomainInfo : Type}.

(** The transport of the provider (declared in another file of the
    package).  [fetchDomainList] yields the new content of
    [c.domainIndex] and its error. *)
Variable fetchDomainList :
  Remote → gmap string DomainInfo * option string * Remote.
Variable createDomain : string → Remote → option string * Remote.
Variable getRecords :
  string → Remote → list resourceRecord * option string * Remote.
Variable deleteRR : resourceRecord → string → Remote → option string * Remote.
Variable upsertRR : resourceRecord → string → Remote → option string * Remote.

(** The record conversions of the provider. *)
Variable nativeToRecords : resourceRecord → string → list RecordConfig.
Variable recordsToNative : list RecordConfig → string → list resourceRecord.

(** The orchestrator: [dc.Punycode()] yields the new content of
    [dc.Records], whose records it rewrites in place (a run in which it
    panics never reaches the loop of [PrepDesiredRecords] and is not
    modelled); [models.PostProcessRecords] likewise;
    [diff.New(dc).ChangedGroups]; [Records.GroupedByKey]. *)
Variable Punycode : DomainConfig → list RecordConfig.
Variable PostProcessRecords : list RecordConfig → list RecordConfig.
Variable ChangedGroups :
  DomainConfig → list RecordConfig → gmap RecordKey (list string).
Variable GroupedByKey : list RecordConfig → gmap RecordKey (list RecordConfig).

(** [dnsutil.TrimDomainName]. *)
Variable TrimDomainName : string → string → string.

(** Each transport call sends its request, which the log records. *)
Definition call_fetchDomainList (w : World Remote)
    : gmap string DomainInfo * option string * World Remote :=
  let '(index, err, r) := fetchDomainList (remote w) in
  (index, err, mkWorld r (calls w ++ [CallFetchDomainList])).

Definition call_createDomain (domain : string) (w : World Remote)
    : option string * World Remote :=
  let '(err, r) := createDomain domain (remote w) in
  (err, mkWorld r (calls w ++ [CallCreateDomain domain])).

Definition call_getRecords (domain : string) (w : World Remote)
    : list resourceRecord * option string * World Remote :=
  let '(records, err, r) := getRecords domain (remote w) in
  (records, err, mkWorld r (calls w ++ [CallGetRecords domain])).

Definition call_deleteRR (rc : resourceRecord) (domain : string)
    (w : World Remote) : option string * World Remote :=
  let '(err, r) := deleteRR rc domain (remote w) in
  (err, mkWorld r (calls w ++ [CallDeleteRR rc domain])).

Definition call_upsertRR (rc : resourceRecord) (domain : string)
    (w : World Remote) : option string * World Remote :=
  let '(err, r) := upsertRR rc domain (remote w) in
  (err, mkWorld r (calls w ++ [CallUpsertRR rc domain])).

(** [NewDeSec] (lines 21-34): the provider, or [None] with an error. *)
Definition NewDeSec (m : gmap string string) (w : World Remote)
    : option (api DomainInfo) * option string * World Remote :=
  let token := default "" (m !! "auth-token") in
  if decide (token = "") then
    (None, Some "missing deSEC auth-token", w)
  else
    let '(index, err, w) := call_fetchDomainList w in
    match err with
    | Some e => (None, Some e, w)
    | None => (Some (mkApi token index), None, w)
    end.

(** [EnsureDomainExists] (lines 91-100): the receiver after the call,
    the error, and the world. *)
Definition EnsureDomainExists (c : api DomainInfo) (domain : string)
    (w : World Remote) : api DomainInfo * option string * World Remote :=
  let '(index, err, w) := call_fetchDomainList w in
  let c := mkApi (creds_token c) index in
  match err with
  | Some e => (c, Some e, w)
  | None =>
      match domainIndex c !! domain with
      | Some _ => (c, None, w)
      | None =>
          let '(err, w) := call_createDomain domain w in
          (c, err, w)
      end
  end.

(** [GetZoneRecords] (lines 76-88). *)
Definition GetZoneRecords (domain : string) (w : World Remote)
    : list RecordConfig * option string * World Remote :=
  let '(records, err, w) := call_getRecords domain w in
  match err with
  | Some e => ([], Some e, w)
  | None => (records ≫= (fun rr => nativeToRecords rr domain), None, w)
  end.

(** The body of the loop of [PrepDesiredRecords] (lines 119-132), on
    the records kept so far and the warnings printed so far. *)
Definition prep_record (state : list RecordConfig * list string)
    (rec : RecordConfig) : list RecordConfig * list string :=
  let '(recordsToKeep, warnings) := state in
  if decide (rType rec = "ALIAS") then
    (recordsToKeep, warnings ++ [alias_warning])
  else if (rTTL rec <? 3600)%N then
    let warnings :=
      if decide (rType rec ≠ "NS")
      then warnings ++ [ttl_warning rec]
      else warnings in
    (recordsToKeep ++ [set_TTL rec 3600], warnings)
  else
    (recordsToKeep ++ [rec], warnings).

(** [PrepDesiredRecords] (lines 111-134): [dc] after the call, and the
    warnings printed. *)
Definition PrepDesiredRecords (dc : DomainConfig) (warnings : list string)
    : DomainConfig * list string :=
  let '(recordsToKeep, warnings) :=
    fold_left prep_record (Punycode dc) ([], warnings) in
  ({| Name := Name dc; Records := recordsToKeep |}, warnings).

(** The loop [for label := range keysToUpdate] (lines 157-228), along
    the keys the range yields.  Every iteration assigns the key to the
    one variable [label]. *)
Fixpoint range_keysToUpdate (label : loc) (dc : DomainConfig)
    (keysToUpdate : gmap RecordKey (list string))
    (desiredRecords : gmap RecordKey (list RecordConfig))
    (order : list RecordKey) (store : gmap loc RecordKey)
    (corrections : list Correction)
    : outcome (list Correction * gmap loc RecordKey) :=
  match order with
  | [] => Returned (corrections, store)
  | key :: order =>
      let store := <[label := key]> store in
      match desiredRecords !! key with
      | None =>
          range_keysToUpdate label dc keysToUpdate desiredRecords order store
            (delete_messages label dc 0 (keysToUpdate !!! key) corrections)
      | Some rcs =>
          let ns := recordsToNative rcs (Name dc) in
          if decide (1 < length ns) then
            Panicked "we got more than one resource record to create / modify"
          else
            range_keysToUpdate label dc keysToUpdate desiredRecords order
              store
              (upsert_messages ns dc 0 (keysToUpdate !!! key) corrections)
      end
  end.

(** [GenerateDomainCorrections] (lines 141-230).  [order] is the order
    in which the range yields the changed keys, [store] the captured
    variables allocated so far; the result is the correction list, the
    error and the store. *)
Definition GenerateDomainCorrections (dc : DomainConfig)
    (existing : list RecordConfig) (order : list RecordKey)
    (store : gmap loc RecordKey)
    : outcome (list Correction * option string * gmap loc RecordKey) :=
  let keysToUpdate := ChangedGroups dc existing in
  if decide (size keysToUpdate = 0) then
    Returned ([], None, store)
  else
    let desiredRecords := GroupedByKey (Records dc) in
    let label := fresh (dom store) in
    match range_keysToUpdate label dc keysToUpdate desiredRecords order
            store [] with
    | Panicked msg => Panicked msg
    | Returned (corrections, store) => Returned (corrections, None, store)
    end.

(** The native record set a delete action sends for the key it reads
    (lines 168-177). *)
Definition delete_request (label : RecordKey) (dc : DomainConfig)
    : resourceRecord :=
  let shortname := TrimDomainName (NameFQDN label) (Name dc) in
  let shortname := if decide (shortname = "@") then "" else shortname in
  {| Type_ := KType label; Subname := shortname; RRecords := []; TTL := 0 |}.

(** Calling the deferred action of a correction, [corr.F()]: a captured
    variable is read from the store as it is at the time of the call. *)
Definition invoke (f : Closure) (store : gmap loc RecordKey)
    (w : World Remote) : outcome (option string * World Remote) :=
  match f with
  | DeleteClosure label dc =>
      let rc := delete_request (store !!! label) dc in
      Returned (call_deleteRR rc (Name dc) w)
  | UpsertClosure ns dc =>
      match ns with
      | [] => Panicked "runtime error: index out of range [0] with length 0"
      | rc :: _ => Returned (call_upsertRR rc (Name dc) w)
      end
  | NoopClosure => Returned (None, w)
  end.

(** [GetDomainCorrections] (lines 64-73). *)
Definition GetDomainCorrections (dc : DomainConfig) (order : list RecordKey)
    (store : gmap loc RecordKey) (warnings : list string) (w : World Remote)
    : outcome (list Correction * option string * gmap loc RecordKey)
      * list string * World Remote :=
  let '(existing, err, w) := GetZoneRecords (Name dc) w in
  match err with
  | Some e => (Returned ([], Some e, store), warnings, w)
  | None =>
      let existing := PostProcessRecords existing in
      let clean := PrepFoundRecords existing in
      let '(dc, warnings) := PrepDesiredRecords dc warnings in
      (GenerateDomainCorrections dc clean order store, warnings, w)
  end.

(** The corrections one iteration of the outer loop appends for
    [key]. *)
Definition iteration_corrections (label : loc) (dc : DomainConfig)
    (keysToUpdate : gmap RecordKey (list string))
    (desiredRecords : gmap RecordKey (list RecordConfig))
    (key : RecordKey) : list Correction :=
  match desiredRecords !! key with
  | None => first_then_noops (DeleteClosure label dc) (keysToUpdate !!! key)
  | Some rcs =>
      first_then_noops (UpsertClosure (recordsToNative rcs (Name dc)) dc)
                       (keysToUpdate !!! key)
  end.

(** ** The capability normaliser *)

Lemma prep_record_unfold keep warnings rec :
  prep_record (keep, warnings) rec
  = (keep ++ option_list (kept_record rec), warnings ++ record_warnings rec).
Proof.
  unfold prep_record, kept_record, record_warnings.
  repeat case_decide; destruct (rTTL rec <? 3600)%N;
    rewrite ?app_nil_r; done.
Qed.

Lemma prep_loop_unfold recs keep warnings :
  fold_left prep_record recs (keep, warnings)
  = (keep ++ omap kept_record recs, warnings ++ (recs ≫= record_warnings)).
Proof.
  revert keep warnings.
  induction recs as [|rec recs IH]; intros keep warnings; cbn [fold_left].
  - by rewrite !app_nil_r.
  - rewrite prep_record_unfold, IH, <- !app_assoc.
    simpl. by destruct (kept_record rec).
Qed.

Lemma PrepDesiredRecords_unfold dc warnings :
  PrepDesiredRecords dc warnings
  = ({| Name := Name dc; Records := omap kept_record (Punycode dc) |},
     warnings ++ (Punycode dc ≫= record_warnings)).
Proof.
  unfold PrepDesiredRecords. by rewrite prep_loop_unfold.
Qed.

Lemma ttl_warning_not_alias_warning rec : ttl_warning rec ≠ alias_warning.
Proof. unfold ttl_warning, alias_warning. cbn. discriminate. Qed.

Lemma kept_record_of_input (rs ps : list RecordConfig) :
  Forall2 (fun r p => rType p = rType r ∧ rTTL p = rTTL r) rs ps →
  Forall2 (fun r k => rType k = rType r
                      ∧ rTTL k = if (rTTL r <? 3600)%N then 3600%N else rTTL r)
          (filter (fun r => rType r ≠ "ALIAS") rs) (omap kept_record ps).
Proof.
  induction 1 as [|r p rs ps [Ht Hl] _ IH]; [constructor|].
  rewrite filter_cons. cbn [omap list_omap]. unfold kept_record at 1.
  rewrite Ht, Hl.
  destruct (decide (rType r = "ALIAS")) as [Ha|Ha].
  - rewrite decide_False by (intros Hn; exact (Hn Ha)). exact IH.
  - rewrite decide_True by done.
    destruct (rTTL r <? 3600)%N eqn:E;
      (constructor; [cbn; rewrite ?E; by split | exact IH]).
Qed.

Lemma kept_record_of_punycoded (ps : list RecordConfig) :
  Forall2 (fun p k => k = if (rTTL p <? 3600)%N then set_TTL p 3600 else p)
          (filter (fun p => rType p ≠ "ALIAS") ps) (omap kept_record ps).
Proof.
  induction ps as [|p ps IH]; [constructor|].
  rewrite filter_cons. cbn [omap list_omap]. unfold kept_record at 1.
  destruct (decide (rType p = "ALIAS")) as [Ha|Ha].
  - rewrite decide_False by (intros Hn; exact (Hn Ha)). exact IH.
  - rewrite decide_True by done.
    destruct (rTTL p <? 3600)%N eqn:E;
      (constructor; [cbn; by rewrite ?E | exact IH]).
Qed.

Lemma ttl_warnings_count (rs ps : list RecordConfig) :
  Forall2 (fun r p => rType p = rType r ∧ rTTL p = rTTL r) rs ps →
  length (filter (fun w => w ≠ alias_warning) (ps ≫= record_warnings))
  = length (filter (fun r => rType r ≠ "ALIAS" ∧ rType r ≠ "NS"
                             ∧ (rTTL r < 3600)%N) rs).
Proof.
  induction 1 as [|r p rs ps [Ht Hl] _ IH]; [done|].
  cbn [mbind list_bind]. rewrite filter_app, length_app, filter_cons.
  fold (ps ≫= record_warnings). rewrite IH. clear IH.
  unfold record_warnings. rewrite Ht, Hl.
  destruct (decide (rType r = "ALIAS")) as [Ha|Ha].
  - rewrite decide_False by (intros [Hn _]; exact (Hn Ha)).
    rewrite filter_cons, decide_False by (intros Hn; exact (Hn eq_refl)).
    done.
  - destruct (N.ltb_spec (rTTL r) 3600) as [Hlt|Hge].
    + destruct (decide (rType r ≠ "NS")) as [Hn|Hn].
      * rewrite decide_True by done.
        rewrite filter_cons, decide_True
          by apply ttl_warning_not_alias_warning.
        done.
      * rewrite decide_False by (intros (_ & Hns & _); exact (Hn Hns)).
        done.
    + rewrite decide_False by (intros (_ & _ & Hlt); lia). done.
Qed.

Lemma alias_warnings_count (rs ps : list RecordConfig) :
  Forall2 (fun r p => rType p = rType r ∧ rTTL p = rTTL r) rs ps →
  length (filter (fun w => w = alias_warning) (ps ≫= record_warnings))
  = length (filter (fun r => rType r = "ALIAS") rs).
Proof.
  induction 1 as [|r p rs ps [Ht Hl] _ IH]; [done|].
  cbn [mbind list_bind]. rewrite filter_app, length_app, filter_cons.
  fold (ps ≫= record_warnings). rewrite IH. clear IH.
  unfold record_warnings. rewrite Ht.
  destruct (decide (rType r = "ALIAS")) as [Ha|Ha].
  - rewrite filter_cons, decide_True by done. done.
  - destruct (rTTL p <? 3600)%N; [|done].
    destruct (decide (rType r ≠ "NS")); [|done].
    rewrite filter_cons, decide_False
      by apply ttl_warning_not_alias_warning.
    done.
Qed.

Lemma ttl_warning_recorded (ps : list RecordConfig) (p : RecordConfig) :
  p ∈ ps → rType p ≠ "ALIAS" → rType p ≠ "NS" → (rTTL p < 3600)%N →
  ttl_warning p ∈ ps ≫= record_warnings.
Proof.
  intros Hin Ha Hn Hlt. apply list_elem_of_bind. exists p. split; [|done].
  unfold record_warnings. rewrite decide_False by done.
  apply N.ltb_lt in Hlt. rewrite Hlt, decide_True by done.
  apply list_elem_of_singleton. done.
Qed.

(** C3, as the code has it.  After [PrepDesiredRecords] every kept
    record whose TTL was below 3600 has TTL 3600, whatever its type, NS
    included; every kept record whose TTL was 3600 or more is unchanged;
    a warning citing the record is printed for each raised record
    whose type is not NS, and for no other kept record. *)
Theorem PrepDesiredRecords_ttl_floor dc warnings :
  Forall2 (fun r p => rType p = rType r ∧ rTTL p = rTTL r)
          (Records dc) (Punycode dc) →
  ∃ new : list string,
    (PrepDesiredRecords dc warnings).2 = warnings ++ new
    ∧ Forall2 (fun r k => rType k = rType r
                          ∧ ((rTTL r < 3600)%N → rTTL k = 3600%N)
                          ∧ ((3600 ≤ rTTL r)%N → rTTL k = rTTL r))
              (filter (fun r => rType r ≠ "ALIAS") (Records dc))
              (Records (PrepDesiredRecords dc warnings).1)
    ∧ Forall2 (fun p k => ((rTTL p < 3600)%N → k = set_TTL p 3600)
                          ∧ ((3600 ≤ rTTL p)%N → k = p))
              (filter (fun p => rType p ≠ "ALIAS") (Punycode dc))
              (Records (PrepDesiredRecords dc warnings).1)
    ∧ (∀ p, p ∈ Punycode dc → rType p ≠ "ALIAS" → rType p ≠ "NS" →
            (rTTL p < 3600)%N → ttl_warning p ∈ new)
    ∧ length (filter (fun w => w ≠ alias_warning) new)
      = length (filter (fun r => rType r ≠ "ALIAS" ∧ rType r ≠ "NS"
                                 ∧ (rTTL r < 3600)%N) (Records dc)).
Proof.
  intros Hp. rewrite PrepDesiredRecords_unfold. cbn [fst snd Records].
  exists (Punycode dc ≫= record_warnings). split; [done|].
  split; [|split; [|split]].
  - eapply Forall2_impl; [by apply kept_record_of_input|].
    intros r k [Ht Hl]. split; [done|]. rewrite Hl.
    destruct (N.ltb_spec (rTTL r) 3600); split; intros; (done || lia).
  - eapply Forall2_impl; [apply kept_record_of_punycoded|].
    intros q k ->.
    destruct (N.ltb_spec (rTTL q) 3600); split; intros; (done || lia).
  - intros q. apply ttl_warning_recorded.
  - by apply ttl_warnings_count.
Qed.

(** C6, as the code has it.  [PrepDesiredRecords] removes every ALIAS
    record: none is in the normalised record set.  For each of them it
    prints one warning, the fixed text of line 122, which names neither
    the label nor the target of the record it drops.  Every record of
    another type is kept, in order, as [dc.Punycode()] left it, up to
    the TTL floor. *)
Theorem PrepDesiredRecords_drops_alias dc warnings :
  Forall2 (fun r p => rType p = rType r ∧ rTTL p = rTTL r)
          (Records dc) (Punycode dc) →
  ∃ new : list string,
    (PrepDesiredRecords dc warnings).2 = warnings ++ new
    ∧ (∀ k, k ∈ Records (PrepDesiredRecords dc warnings).1 →
            rType k ≠ "ALIAS")
    ∧ length
        (filter
           (fun w => w = "deSEC does not support alias records"
                         +:+ String (Ascii.Ascii false true false true
                                                 false false false false) "")
           new)
      = length (filter (fun r => rType r = "ALIAS") (Records dc))
    ∧ Forall2 (fun r k => rType k = rType r)
              (filter (fun r => rType r ≠ "ALIAS") (Records dc))
              (Records (PrepDesiredRecords dc warnings).1)
    ∧ Forall2 (fun p k => k = p ∨ k = set_TTL p 3600)
              (filter (fun p => rType p ≠ "ALIAS") (Punycode dc))
              (Records (PrepDesiredRecords dc warnings).1).
Proof.
  intros Hp. rewrite PrepDesiredRecords_unfold. cbn [fst snd Records].
  exists (Punycode dc ≫= record_warnings). split; [done|].
  split; [|split; [|split]].
  - intros k [p [_ Hk]]%list_elem_of_omap. unfold kept_record in Hk.
    destruct (decide (rType p = "ALIAS")); [done|].
    destruct (rTTL p <? 3600)%N; by simplify_eq.
  - change ("deSEC does not support alias records"
            +:+ String (Ascii.Ascii false true false true
                                    false false false false) "")
      with alias_warning.
    by apply alias_warnings_count.
  - eapply Forall2_impl; [by apply kept_record_of_input|].
    by intros r k [Ht _].
  - eapply Forall2_impl; [apply kept_record_of_punycoded|].
    intros q k ->. destruct (rTTL q <? 3600)%N; auto.
Qed.

(** ** The correction planner *)

Lemma delete_messages_succ label dc i msgs corrections :
  delete_messages label dc (S i) msgs corrections
  = corrections ++ ((fun m => {| Msg := m; F := NoopClosure |}) <$> msgs).
Proof.
  revert i corrections.
  induction msgs as [|msg rest IH]; intros i corrections; simpl.
  - by rewrite app_nil_r.
  - by rewrite IH, <- app_assoc.
Qed.

Lemma delete_messages_unfold label dc msgs corrections :
  delete_messages label dc 0 msgs corrections
  = corrections ++ first_then_noops (DeleteClosure label dc) msgs.
Proof.
  destruct msgs as [|msg rest]; simpl.
  - by rewrite app_nil_r.
  - by rewrite delete_messages_succ, <- app_assoc.
Qed.

Lemma upsert_messages_succ ns dc i msgs corrections :
  upsert_messages ns dc (S i) msgs corrections
  = corrections ++ ((fun m => {| Msg := m; F := NoopClosure |}) <$> msgs).
Proof.
  revert i corrections.
  induction msgs as [|msg rest IH]; intros i corrections; simpl.
  - by rewrite app_nil_r.
  - by rewrite IH, <- app_assoc.
Qed.

Lemma upsert_messages_unfold ns dc msgs corrections :
  upsert_messages ns dc 0 msgs corrections
  = corrections ++ first_then_noops (UpsertClosure ns dc) msgs.
Proof.
  destruct msgs as [|msg rest]; simpl.
  - by rewrite app_nil_r.
  - by rewrite upsert_messages_succ, <- app_assoc.
Qed.

Lemma length_first_then_noops first msgs :
  length (first_then_noops first msgs) = length msgs.
Proof. destruct msgs; simpl; [done|]. by rewrite length_fmap. Qed.

(** When no key converts to more than one record set the loop returns:
    it has appended the corrections of every key, in order, and left
    in [label] the key it visited last. *)
Lemma range_keysToUpdate_returns label dc keysToUpdate desiredRecords
    order store corrections :
  Forall (fun key => ∀ rcs, desiredRecords !! key = Some rcs →
                            length (recordsToNative rcs (Name dc)) ≤ 1)
         order →
  range_keysToUpdate label dc keysToUpdate desiredRecords order store
                     corrections
  = Returned
      (corrections
         ++ concat (iteration_corrections label dc keysToUpdate
                                          desiredRecords <$> order),
       fold_left (fun s key => <[label := key]> s) order store).
Proof.
  intros Hone. revert store corrections.
  induction Hone as [|key order Hkey _ IH]; intros store corrections.
  - simpl. by rewrite app_nil_r.
  - cbn [range_keysToUpdate fmap list_fmap concat fold_left].
    destruct (desiredRecords !! key) as [rcs|] eqn:Hd.
    + rewrite decide_False by (specialize (Hkey rcs eq_refl); lia).
      rewrite IH, upsert_messages_unfold, <- app_assoc.
      unfold iteration_corrections. by rewrite Hd.
    + rewrite IH, delete_messages_unfold, <- app_assoc.
      unfold iteration_corrections. by rewrite Hd.
Qed.

(** When some key converts to more than one record set the loop
    panics. *)
Lemma range_keysToUpdate_panics label dc keysToUpdate desiredRecords
    order store corrections :
  Exists (fun key => ∃ rcs, desiredRecords !! key = Some rcs
                            ∧ 1 < length (recordsToNative rcs (Name dc)))
         order →
  range_keysToUpdate label dc keysToUpdate desiredRecords order store
                     corrections
  = Panicked "we got more than one resource record to create / modify".
Proof.
  intros Hbad. revert store corrections.
  induction order as [|key order IH]; intros store corrections.
  - by apply Exists_nil in Hbad.
  - cbn [range_keysToUpdate].
    apply Exists_cons in Hbad as [(rcs & Hd & Hlen)|Hbad].
    + rewrite Hd. by rewrite decide_True.
    + destruct (desiredRecords !! key) as [rcs|]; [|by apply IH].
      case_decide; [done|by apply IH].
Qed.

(** Conversely, a loop that returned met no such key. *)
Lemma range_keysToUpdate_returned label dc keysToUpdate desiredRecords
    order store corrections result :
  range_keysToUpdate label dc keysToUpdate desiredRecords order store
                     corrections = Returned result →
  Forall (fun key => ∀ rcs, desiredRecords !! key = Some rcs →
                            length (recordsToNative rcs (Name dc)) ≤ 1)
         order.
Proof.
  revert store corrections.
  induction order as [|key order IH]; intros store corrections Hret;
    [constructor|].
  cbn [range_keysToUpdate] in Hret.
  destruct (desiredRecords !! key) as [rcs|] eqn:Hd.
  - case_decide as Hlen; [done|].
    constructor; [|by eapply IH].
    intros rcs' Hrcs. simplify_eq. lia.
  - constructor; [|by eapply IH].
    intros rcs Hrcs. congruence.
Qed.

Lemma label_after_range label (init : list RecordKey) last
    (store : gmap loc RecordKey) :
  fold_left (fun s key => <[label := key]> s) (init ++ [last]) store
    !!! label = last.
Proof. rewrite fold_left_app. simpl. apply lookup_total_insert_eq. Qed.

Lemma range_order_empty order : range_order ∅ order → order = [].
Proof.
  unfold range_order. rewrite map_to_list_empty. simpl.
  apply Permutation_nil_r.
Qed.

Lemma range_order_elem_of (keysToUpdate : gmap RecordKey (list string))
    order key :
  range_order keysToUpdate order →
  key ∈ order ↔ is_Some (keysToUpdate !! key).
Proof.
  unfold range_order. intros ->. rewrite list_elem_of_fmap. split.
  - intros [[k msgs] [-> Hin%elem_of_map_to_list]]. by exists msgs.
  - intros [msgs Hm]. exists (key, msgs). split; [done|].
    by apply elem_of_map_to_list.
Qed.

(** The whole pass, when no key converts to more than one record
    set. *)
Lemma GenerateDomainCorrections_returns dc existing order store :
  range_order (ChangedGroups dc existing) order →
  (∀ key rcs, key ∈ order →
              GroupedByKey (Records dc) !! key = Some rcs →
              length (recordsToNative rcs (Name dc)) ≤ 1) →
  GenerateDomainCorrections dc existing order store
  = Returned
      (concat (iteration_corrections (fresh (dom store)) dc
                 (ChangedGroups dc existing) (GroupedByKey (Records dc))
               <$> order),
       None,
       fold_left (fun s key => <[fresh (dom store) := key]> s) order store).
Proof.
  intros Horder Hone. unfold GenerateDomainCorrections.
  case_decide as Hsize.
  - apply map_size_empty_inv in Hsize. rewrite Hsize in Horder.
    apply range_order_empty in Horder as ->. done.
  - rewrite range_keysToUpdate_returns; [done|].
    apply Forall_forall. intros key Hin rcs. by apply Hone.
Qed.

(** The delete closures of one iteration all hold the loop variable. *)
Lemma iteration_delete_closure label dc keysToUpdate desiredRecords key c
    label' dc' :
  c ∈ iteration_corrections label dc keysToUpdate desiredRecords key →
  F c = DeleteClosure label' dc' → label' = label ∧ dc' = dc.
Proof.
  unfold iteration_corrections, first_then_noops. intros Hin Hc.
  destruct (desiredRecords !! key), (keysToUpdate !!! key);
    try by apply elem_of_nil in Hin.
  all: apply elem_of_cons in Hin as [->|Hin]; simpl in Hc;
    [|apply list_elem_of_fmap in Hin as (m & -> & _); simpl in Hc];
    by simplify_eq.
Qed.

(** Once a pass has returned, every delete action it has built reads
    the key the loop visited last, whichever key it was built for. *)
Lemma deferred_delete_reads_last_key dc existing init last store
    corrections err store' c label dc' w :
  ChangedGroups dc existing ≠ ∅ →
  GenerateDomainCorrections dc existing (init ++ [last]) store
  = Returned (corrections, err, store') →
  c ∈ corrections → F c = DeleteClosure label dc' →
  invoke (F c) store' w
  = Returned (call_deleteRR (delete_request last dc) (Name dc) w).
Proof.
  intros Hne Hret Hin Hc. unfold GenerateDomainCorrections in Hret.
  rewrite decide_False in Hret by by apply map_size_non_empty_iff.
  destruct (range_keysToUpdate _ _ _ _ _ _ _) as [[cs st]|] eqn:Hrange;
    [|done].
  injection Hret as <- <- <-.
  pose proof (range_keysToUpdate_returned _ _ _ _ _ _ _ _ Hrange) as Hone.
  rewrite (range_keysToUpdate_returns _ _ _ _ _ _ _ Hone) in Hrange.
  injection Hrange as <- <-. simpl in Hin.
  apply list_elem_of_In, in_concat in Hin as (block & Hblock & Hin).
  apply list_elem_of_In in Hin.
  apply list_elem_of_In, list_elem_of_fmap in Hblock as (key & -> & _).
  destruct (iteration_delete_closure _ _ _ _ _ _ _ _ Hin Hc) as [-> ->].
  rewrite Hc. simpl. by rewrite label_after_range.
Qed.

(** C2.  A pass in which no key converts to more than one record set
    returns the corrections of the changed keys, block after block in
    the order of the range; the block of a key that is absent from the
    desired set and has the messages [msg :: rest] is one correction
    for [msg] carrying the delete action, followed by one correction
    with a no-op action for each message of [rest]: as many
    corrections as messages.  The delete action is a real one: invoked,
    it sends one delete request to the zone, for a record set without
    values, and returns the error of that request; a no-op action sends
    nothing and returns nil. *)
Theorem deletion_emits_one_delete_then_noops dc existing order store :
  range_order (ChangedGroups dc existing) order →
  (∀ key rcs, key ∈ order →
              GroupedByKey (Records dc) !! key = Some rcs →
              length (recordsToNative rcs (Name dc)) ≤ 1) →
  (∃ (blocks : list (list Correction)) (store' : gmap loc RecordKey),
     GenerateDomainCorrections dc existing order store
     = Returned (concat blocks, None, store')
     ∧ Forall2
         (fun key block =>
            GroupedByKey (Records dc) !! key = None →
            ∀ msg rest,
              ChangedGroups dc existing !! key = Some (msg :: rest) →
              block
              = {| Msg := msg; F := DeleteClosure (fresh (dom store)) dc |}
                :: ((fun m => {| Msg := m; F := NoopClosure |}) <$> rest)
              ∧ length block = length (msg :: rest))
         order blocks)
  ∧ (∀ (store' : gmap loc RecordKey) (w : World Remote),
       ∃ rc err r,
         rc = delete_request (store' !!! fresh (dom store)) dc
         ∧ RRecords rc = []
         ∧ deleteRR rc (Name dc) (remote w) = (err, r)
         ∧ invoke (DeleteClosure (fresh (dom store)) dc) store' w
           = Returned
               (err, mkWorld r (calls w ++ [CallDeleteRR rc (Name dc)])))
  ∧ (∀ (store' : gmap loc RecordKey) (w : World Remote),
       invoke NoopClosure store' w = Returned (None, w)).
Proof.
  intros Horder Hone. split; [|split; [|done]].
  - eexists _, _. split.
    + by apply GenerateDomainCorrections_returns.
    + apply Forall2_fmap_r, Forall_Forall2_diag, Forall_forall.
      intros key _ Hd msg rest Hm. unfold iteration_corrections.
      rewrite Hd, (lookup_total_correct _ _ _ Hm). simpl.
      by rewrite length_fmap.
  - intros store' w. simpl. unfold call_deleteRR.
    destruct (deleteRR _ _ _) as [err r] eqn:Hdelete.
    by eexists _, err, r.
Qed.

(** ** The conversion of a key's desired records *)

Lemma GroupedByKey_spec_groups recs key rcs :
  GroupedByKey_spec recs !! key = Some rcs →
  rcs ≠ [] ∧ Forall (fun rec => Key rec = key) rcs.
Proof.
  unfold GroupedByKey_spec.
  assert (∀ groups : gmap RecordKey (list RecordConfig),
    (∀ k l, groups !! k = Some l →
            l ≠ [] ∧ Forall (fun rec => Key rec = k) l) →
    ∀ k l,
      fold_left (fun groups rec =>
                   <[Key rec := groups !!! Key rec ++ [rec]]> groups)
                recs groups !! k = Some l →
      l ≠ [] ∧ Forall (fun rec => Key rec = k) l) as Hinv.
  { induction recs as [|rec recs IH]; intros groups Hg; [exact Hg|].
    cbn [fold_left]. apply IH. intros k l.
    destruct (decide (Key rec = k)) as [<-|Hk].
    - rewrite lookup_insert_eq. intros [= <-]. split.
      + intros Hnil. by apply app_eq_nil in Hnil as [_ ?].
      + apply Forall_app. split; [|by constructor].
        rewrite lookup_total_alt.
        destruct (groups !! Key rec) as [l|] eqn:Hl; simpl.
        * by apply (Hg _ _ Hl).
        * constructor.
    - rewrite lookup_insert_ne by done. apply Hg. }
  apply Hinv. intros k l. by rewrite lookup_empty.
Qed.

Lemma coalesce_same_key trim origin key zr rcs :
  Forall (fun rec => Key rec = key) rcs →
  ∃ zr', fold_left (fun zrs rec => coalesce trim origin rec zrs) rcs
                   [(key, zr)] = [(key, zr')].
Proof.
  intros Hk. revert zr.
  induction Hk as [|rec rcs Hrec _ IH]; intros zr; [by eexists|].
  cbn [fold_left coalesce]. rewrite decide_True by done. apply IH.
Qed.

Lemma recordsToNative_spec_one trim rcs origin key :
  rcs ≠ [] → Forall (fun rec => Key rec = key) rcs →
  length (recordsToNative_spec trim rcs origin) = 1.
Proof.
  intros Hne Hk. unfold recordsToNative_spec.
  destruct Hk as [|rec rcs Hrec Hk]; [done|].
  cbn [fold_left coalesce]. rewrite Hrec.
  edestruct coalesce_same_key as [zr' ->]; [exact Hk|]. done.
Qed.

(** C4.  The desired records of a key convert to exactly one native
    record set; and if the conversion of a changed key that is present
    in the desired set yields more than one, the pass panics: it
    returns no correction list at all. *)
Theorem conversion_yields_one_or_pass_panics :
  (∀ dc key rcs,
     GroupedByKey_spec (Records dc) !! key = Some rcs →
     length (recordsToNative_spec TrimDomainName rcs (Name dc)) = 1)
  ∧ (∀ dc existing order store key rcs,
       range_order (ChangedGroups dc existing) order →
       is_Some (ChangedGroups dc existing !! key) →
       GroupedByKey (Records dc) !! key = Some rcs →
       1 < length (recordsToNative rcs (Name dc)) →
       GenerateDomainCorrections dc existing order store
       = Panicked "we got more than one resource record to create / modify").
Proof.
  split.
  - intros dc key rcs [Hne Hk]%GroupedByKey_spec_groups.
    by eapply recordsToNative_spec_one.
  - intros dc existing order store key rcs Horder Hchanged Hd Hlen.
    unfold GenerateDomainCorrections.
    rewrite decide_False.
    + rewrite range_keysToUpdate_panics; [done|].
      apply Exists_exists. exists key. split; [|by eauto].
      by apply (range_order_elem_of _ _ _ Horder).
    + apply map_size_non_empty_iff. intros Hempty.
      rewrite Hempty, lookup_empty in Hchanged. by destruct Hchanged.
Qed.

(** The label translation of the delete action.  The native record set
    built for a key has, as subname, the key's fully-qualified name
    trimmed of the zone, with the apex marker ["@"] replaced by the empty
    string: it is never ["@"].  An invoked delete action sends exactly
    that record set, for the key held by the variable it captured. *)
Lemma delete_subname_translation :
  (∀ (key : RecordKey) (dc : DomainConfig),
     let trimmed := TrimDomainName (NameFQDN key) (Name dc) in
     (trimmed = "@" → Subname (delete_request key dc) = "")
     ∧ (trimmed ≠ "@" → Subname (delete_request key dc) = trimmed)
     ∧ Subname (delete_request key dc) ≠ "@"
     ∧ Type_ (delete_request key dc) = KType key
     ∧ RRecords (delete_request key dc) = [])
  ∧ (∀ (label : loc) (dc : DomainConfig) (store : gmap loc RecordKey)
       (w : World Remote),
       ∃ err w',
         invoke (DeleteClosure label dc) store w = Returned (err, w')
         ∧ calls w'
           = calls w
             ++ [CallDeleteRR (delete_request (store !!! label) dc)
                              (Name dc)]).
Proof.
  split.
  - intros key dc trimmed. unfold delete_request. fold trimmed. simpl.
    destruct (decide (trimmed = "@")) as [Hapex|Hother];
      repeat split; try done.
  - intros label dc store w. simpl. unfold call_deleteRR.
    destruct (deleteRR _ _ _) as [err r]. by eexists _, _.
Qed.

(** C7.  When the diff reports no changed group the pass returns the
    empty correction list and a nil error. *)
Theorem no_changed_groups_no_corrections dc existing order store :
  ChangedGroups dc existing = ∅ →
  GenerateDomainCorrections dc existing order store
  = Returned ([], None, store).
Proof.
  intros Hempty. unfold GenerateDomainCorrections.
  by rewrite Hempty, map_size_empty, decide_True.
Qed.

(** ** Construction and the domain existence gate *)

(** C8.  Without an [auth-token], or with an empty one, [NewDeSec]
    returns the error and no provider, and has sent nothing: the world
    is the one it was given. *)
Theorem NewDeSec_missing_token (m : gmap string string) (w : World Remote) :
  m !! "auth-token" = None ∨ m !! "auth-token" = Some "" →
  NewDeSec m w = (None, Some "missing deSEC auth-token", w).
Proof.
  intros Htoken. unfold NewDeSec.
  by destruct Htoken as [-> | ->].
Qed.

(** C9.  After a successful refresh of the domain index,
    [EnsureDomainExists] returns nil and sends no creation request when
    the index holds the domain; when it does not, it sends the creation
    request and returns the error of the creation as it is.  A second
    call, for a domain that the refreshed index now holds, returns
    nil. *)
Theorem EnsureDomainExists_gate (c : api DomainInfo) (domain : string)
    (w : World Remote) index r :
  fetchDomainList (remote w) = (index, None, r) →
  (is_Some (index !! domain) →
   EnsureDomainExists c domain w
   = (mkApi (creds_token c) index, None,
      mkWorld r (calls w ++ [CallFetchDomainList])))
  ∧ (index !! domain = None →
     ∀ err r', createDomain domain r = (err, r') →
       EnsureDomainExists c domain w
       = (mkApi (creds_token c) index, err,
          mkWorld r' (calls w ++ [CallFetchDomainList;
                                  CallCreateDomain domain])))
  ∧ (∀ c1 err1 w1 index2 r2,
       EnsureDomainExists c domain w = (c1, err1, w1) →
       fetchDomainList (remote w1) = (index2, None, r2) →
       is_Some (index2 !! domain) →
       EnsureDomainExists c1 domain w1
       = (mkApi (creds_token c) index2, None,
          mkWorld r2 (calls w1 ++ [CallFetchDomainList]))).
Proof.
  intros Hfetch. split; [|split].
  - intros [info Hinfo]. unfold EnsureDomainExists, call_fetchDomainList.
    rewrite Hfetch. simpl. by rewrite Hinfo.
  - intros Habsent err r' Hcreate.
    unfold EnsureDomainExists, call_fetchDomainList, call_createDomain.
    rewrite Hfetch. simpl. rewrite Habsent, Hcreate.
    by rewrite <- app_assoc.
  - intros c1 err1 w1 index2 r2 Hfirst Hfetch2 [info Hinfo].
    assert (creds_token c1 = creds_token c) as Htoken.
    { revert Hfirst. unfold EnsureDomainExists, call_fetchDomainList.
      rewrite Hfetch. simpl.
      destruct (index !! domain); [by intros [= <- _ _]|].
      unfold call_createDomain. destruct (createDomain _ _).
      by intros [= <- _ _]. }
    unfold EnsureDomainExists, call_fetchDomainList.
    rewrite Hfetch2. simpl. by rewrite Hinfo, Htoken.
Qed.

(** ** The entry point *)

(** C10.  [PrepFoundRecords] returns the fetched record list as it is;
    hence, when the zone was read, [GetDomainCorrections] plans against
    exactly the post-processed records of the remote zone. *)
Theorem PrepFoundRecords_identity :
  (∀ recs : list RecordConfig, PrepFoundRecords recs = recs)
  ∧ (∀ dc order store warnings (w w' : World Remote) existing,
       GetZoneRecords (Name dc) w = (existing, None, w') →
       GetDomainCorrections dc order store warnings w
       = (GenerateDomainCorrections (PrepDesiredRecords dc warnings).1
            (PostProcessRecords existing) order store,
          (PrepDesiredRecords dc warnings).2, w')).
Proof.
  split; [done|].
  intros dc order store warnings w w' existing Hzone.
  unfold GetDomainCorrections. rewrite Hzone.
  by destruct (PrepDesiredRecords dc warnings).
Qed.

(** ** Further properties: construction, the gate and the zone reader *)

(** X1.  With a non-empty token [NewDeSec] sends one domain-list request
    and nothing else; it returns the provider, holding the token and the
    fetched index, when the request succeeds, and no provider, with the
    error of the request as it is, when it fails. *)
Theorem NewDeSec_with_token (m : gmap string string) (w : World Remote)
    token index err r :
  m !! "auth-token" = Some token → token ≠ "" →
  fetchDomainList (remote w) = (index, err, r) →
  NewDeSec m w
  = (match err with Some _ => None | None => Some (mkApi token index) end,
     err, mkWorld r (calls w ++ [CallFetchDomainList])).
Proof.
  intros Hm Hne Hfetch. unfold NewDeSec, call_fetchDomainList.
  rewrite Hm. simpl. rewrite decide_False by done. rewrite Hfetch.
  by destruct err.
Qed.

(** X2.  [NewDeSec] returns a provider exactly when it returns no
    error. *)
Theorem NewDeSec_provider_iff_no_error (m : gmap string string)
    (w : World Remote) :
  is_Some (NewDeSec m w).1.1 ↔ (NewDeSec m w).1.2 = None.
Proof.
  unfold NewDeSec, call_fetchDomainList. case_decide; simpl.
  - split; [by intros [c Hc]|done].
  - destruct (fetchDomainList (remote w)) as [[index err] r].
    destruct err; simpl; split; intros Hres;
      first [done | by destruct Hres | by eexists].
Qed.

(** X3.  When the refresh of the domain index fails,
    [EnsureDomainExists] returns that error as it is and sends no
    creation request, whether or not the index it was left with holds
    the domain. *)
Theorem EnsureDomainExists_refresh_failure (c : api DomainInfo)
    (domain : string) (w : World Remote) index e r :
  fetchDomainList (remote w) = (index, Some e, r) →
  EnsureDomainExists c domain w
  = (mkApi (creds_token c) index, Some e,
     mkWorld r (calls w ++ [CallFetchDomainList])).
Proof.
  intros Hfetch. unfold EnsureDomainExists, call_fetchDomainList.
  by rewrite Hfetch.
Qed.

(** X4.  Whatever the remote side answers, [EnsureDomainExists] keeps
    the token, replaces the cached index by the one it has just fetched
    (the index the receiver held is never consulted), and sends either
    the refresh alone or the refresh followed by one creation request
    for the domain it was asked for; the creation request is sent only
    after a successful refresh that does not show the domain. *)
Theorem EnsureDomainExists_requests (c : api DomainInfo) (domain : string)
    (w : World Remote) :
  let '(c', err, w') := EnsureDomainExists c domain w in
  let '(index, fetch_err, _) := fetchDomainList (remote w) in
  creds_token c' = creds_token c
  ∧ domainIndex c' = index
  ∧ (calls w' = calls w ++ [CallFetchDomainList]
     ∨ (calls w' = calls w ++ [CallFetchDomainList; CallCreateDomain domain]
        ∧ fetch_err = None ∧ index !! domain = None)).
Proof.
  unfold EnsureDomainExists, call_fetchDomainList, call_createDomain.
  destruct (fetchDomainList (remote w)) as [[index fetch_err] r].
  destruct fetch_err as [e|]; simpl; [by auto|].
  destruct (index !! domain) as [info|] eqn:Hindex; simpl; [by auto|].
  destruct (createDomain domain r) as [err r']. simpl.
  repeat split; try done. right. by rewrite <- app_assoc.
Qed.

(** X5.  When the listing of the zone fails, [GetZoneRecords] returns no
    record and the error of the listing as it is, after that one
    request. *)
Theorem GetZoneRecords_failure (domain : string) (w : World Remote)
    records e r :
  getRecords domain (remote w) = (records, Some e, r) →
  GetZoneRecords domain w
  = ([], Some e, mkWorld r (calls w ++ [CallGetRecords domain])).
Proof.
  intros Hget. unfold GetZoneRecords, call_getRecords. by rewrite Hget.
Qed.

(** X6.  When the listing succeeds, [GetZoneRecords] returns the list
    made of the records that [nativeToRecords] yields for the first
    record set, then of those for the second, and so on, and nothing
    else; with a conversion that yields one record per value it returns
    as many records as the zone has values; for a zone without record
    sets it returns the empty list. *)
Theorem GetZoneRecords_one_record_per_value (domain : string)
    (w : World Remote) records r :
  getRecords domain (remote w) = (records, None, r) →
  ∃ existing,
    GetZoneRecords domain w
    = (existing, None, mkWorld r (calls w ++ [CallGetRecords domain]))
    ∧ existing = concat ((fun rr => nativeToRecords rr domain) <$> records)
    ∧ ((∀ rr, rr ∈ records →
              length (nativeToRecords rr domain) = length (RRecords rr)) →
       length existing
       = sum_list ((fun rr => length (RRecords rr)) <$> records))
    ∧ (records = [] → existing = []).
Proof.
  intros Hget. unfold GetZoneRecords, call_getRecords. rewrite Hget.
  eexists. split; [done|]. clear Hget. split; [|split].
  - induction records as [|rr records IH]; [done|].
    cbn [mbind list_bind fmap list_fmap concat]. f_equal. exact IH.
  - intros Hlen. induction records as [|rr records IH]; [done|].
    cbn [mbind list_bind fmap list_fmap sum_list sum_list_with].
    rewrite length_app, Hlen by apply list_elem_of_here.
    f_equal. apply IH. intros rr' Hin. apply Hlen.
    by apply list_elem_of_further.
  - by intros ->.
Qed.

(** X7.  When the zone cannot be read, [GetDomainCorrections] returns no
    correction and the error of the listing; it has printed no warning,
    allocated no captured variable, and sent nothing but the listing
    request. *)
Theorem GetDomainCorrections_read_failure dc order store warnings
    (w w' : World Remote) existing e :
  GetZoneRecords (Name dc) w = (existing, Some e, w') →
  GetDomainCorrections dc order store warnings w
  = (Returned ([], Some e, store), warnings, w').
Proof.
  intros Hzone. unfold GetDomainCorrections. by rewrite Hzone.
Qed.

(** X8.  [GetDomainCorrections] sends the listing of the zone and no
    other request: planning neither deletes nor writes a record set,
    whether the pass returns, fails or panics. *)
Theorem GetDomainCorrections_only_reads dc order store warnings
    (w : World Remote) :
  let '(_, _, w') := GetDomainCorrections dc order store warnings w in
  calls w' = calls w ++ [CallGetRecords (Name dc)]
  ∧ remote w' = (getRecords (Name dc) (remote w)).2.
Proof.
  unfold GetDomainCorrections, GetZoneRecords, call_getRecords.
  destruct (getRecords (Name dc) (remote w)) as [[records err] r].
  destruct err as [e|]; simpl; [done|].
  by destruct (PrepDesiredRecords dc warnings).
Qed.

(** ** Further properties: the capability normaliser *)

Lemma kept_record_normalised rec k :
  kept_record rec = Some k → rType k ≠ "ALIAS" ∧ (3600 ≤ rTTL k)%N.
Proof.
  unfold kept_record. destruct (decide (rType rec = "ALIAS")); [done|].
  destruct (N.ltb_spec (rTTL rec) 3600); intros [= <-]; simpl;
    split; (done || lia).
Qed.

Lemma kept_record_compliant rec :
  rType rec ≠ "ALIAS" → (3600 ≤ rTTL rec)%N →
  kept_record rec = Some rec ∧ record_warnings rec = [].
Proof.
  intros Ha Hfloor. unfold kept_record, record_warnings.
  rewrite !decide_False by done.
  destruct (N.ltb_spec (rTTL rec) 3600); [lia|done].
Qed.

(** X9.  Whatever the desired records are, [PrepDesiredRecords] leaves
    the zone name as it is, and a record set in which no record has type
    ALIAS and every record has a TTL of at least 3600. *)
Theorem PrepDesiredRecords_normalised dc warnings :
  Name (PrepDesiredRecords dc warnings).1 = Name dc
  ∧ ∀ k, k ∈ Records (PrepDesiredRecords dc warnings).1 →
         rType k ≠ "ALIAS" ∧ (3600 ≤ rTTL k)%N.
Proof.
  rewrite PrepDesiredRecords_unfold. cbn [fst Name Records].
  split; [done|].
  intros k (rec & _ & Hk)%list_elem_of_omap.
  by eapply kept_record_normalised.
Qed.

Lemma compliant_records_unchanged (ps : list RecordConfig) :
  (∀ p, p ∈ ps → rType p ≠ "ALIAS" ∧ (3600 ≤ rTTL p)%N) →
  omap kept_record ps = ps ∧ ps ≫= record_warnings = [].
Proof.
  induction ps as [|p ps IH]; intros Hok; [done|].
  destruct (Hok p) as [Ha Hfloor]; [apply list_elem_of_here|].
  destruct (kept_record_compliant p Ha Hfloor) as [Hkept Hwarn].
  destruct IH as [IHk IHw].
  { intros q Hq. apply Hok. by apply list_elem_of_further. }
  cbn [omap list_omap mbind list_bind]. rewrite Hkept, Hwarn.
  fold (omap kept_record ps). fold (ps ≫= record_warnings).
  by rewrite IHk, IHw.
Qed.

(** X10.  When no desired record has type ALIAS nor a TTL below 3600,
    [PrepDesiredRecords] keeps every record as [dc.Punycode()] left it
    and prints no warning. *)
Theorem PrepDesiredRecords_compliant_unchanged dc warnings :
  (∀ p, p ∈ Punycode dc → rType p ≠ "ALIAS" ∧ (3600 ≤ rTTL p)%N) →
  PrepDesiredRecords dc warnings
  = ({| Name := Name dc; Records := Punycode dc |}, warnings).
Proof.
  intros Hok. rewrite PrepDesiredRecords_unfold.
  destruct (compliant_records_unchanged _ Hok) as [-> ->].
  by rewrite app_nil_r.
Qed.

(** X11.  [PrepDesiredRecords] is idempotent: run again on its own
    result, with a [dc.Punycode()] that leaves the normalised records as
    they are, it changes no record and prints no further warning. *)
Theorem PrepDesiredRecords_idempotent dc warnings :
  Punycode (PrepDesiredRecords dc warnings).1
  = Records (PrepDesiredRecords dc warnings).1 →
  PrepDesiredRecords (PrepDesiredRecords dc warnings).1
                     (PrepDesiredRecords dc warnings).2
  = PrepDesiredRecords dc warnings.
Proof.
  intros Hstable.
  rewrite PrepDesiredRecords_compliant_unchanged.
  - rewrite Hstable.
    destruct (PrepDesiredRecords dc warnings) as [[name recs] warnings'] eqn:Hrun.
    pose proof (proj1 (PrepDesiredRecords_normalised dc warnings)) as Hname.
    rewrite Hrun in Hname. simpl in *. done.
  - rewrite Hstable. apply PrepDesiredRecords_normalised.
Qed.

(** X12.  [PrepDesiredRecords] only adds warnings, after those already
    printed and at most one for each desired record; the records it
    keeps and the ALIAS records it drops add up to the desired records:
    it duplicates none and loses no other. *)
Theorem PrepDesiredRecords_counts dc warnings :
  ∃ new : list string,
    (PrepDesiredRecords dc warnings).2 = warnings ++ new
    ∧ length new ≤ length (Punycode dc)
    ∧ length (Records (PrepDesiredRecords dc warnings).1)
      + length (filter (fun p => rType p = "ALIAS") (Punycode dc))
      = length (Punycode dc).
Proof.
  rewrite PrepDesiredRecords_unfold. cbn [fst snd Records].
  eexists. split; [done|].
  induction (Punycode dc) as [|p ps [IHw IHk]]; [done|].
  cbn [mbind list_bind omap list_omap]. rewrite length_app, filter_cons.
  fold (ps ≫= record_warnings). fold (omap kept_record ps).
  unfold kept_record at 1, record_warnings at 1.
  destruct (decide (rType p = "ALIAS")); simpl.
  - split; lia.
  - destruct (rTTL p <? 3600)%N; [destruct (decide (rType p ≠ "NS"))|];
      simpl; split; lia.
Qed.

(** ** Further properties: the correction planner *)

Lemma Msg_first_then_noops first msgs :
  Msg <$> first_then_noops first msgs = msgs.
Proof.
  destruct msgs as [|msg rest]; [done|]. simpl. f_equal.
  induction rest as [|m rest IH]; [done|]. simpl. by f_equal.
Qed.

Lemma Msg_iteration_corrections label dc keysToUpdate desiredRecords key :
  Msg <$> iteration_corrections label dc keysToUpdate desiredRecords key
  = keysToUpdate !!! key.
Proof.
  unfold iteration_corrections.
  destruct (desiredRecords !! key); apply Msg_first_then_noops.
Qed.

Lemma actions_of_first_then_noops first msgs :
  first ≠ NoopClosure →
  length (filter (fun c => F c ≠ NoopClosure) (first_then_noops first msgs))
  = if decide (msgs ≠ []) then 1 else 0.
Proof.
  intros Hfirst. destruct msgs as [|msg rest]; [done|].
  rewrite decide_True by done. unfold first_then_noops.
  rewrite filter_cons, decide_True by done. simpl. f_equal.
  induction rest as [|m rest IH]; [done|].
  cbn [fmap list_fmap]. rewrite filter_cons, decide_False; [exact IH|].
  intros Hn. by apply Hn.
Qed.

Lemma actions_of_iteration label dc keysToUpdate desiredRecords key :
  length (filter (fun c => F c ≠ NoopClosure)
            (iteration_corrections label dc keysToUpdate desiredRecords key))
  = if decide (keysToUpdate !!! key ≠ []) then 1 else 0.
Proof.
  unfold iteration_corrections.
  destruct (desiredRecords !! key); by apply actions_of_first_then_noops.
Qed.

(** What a returned pass has computed. *)
Lemma GenerateDomainCorrections_returned dc existing order store
    corrections err store' :
  GenerateDomainCorrections dc existing order store
  = Returned (corrections, err, store') →
  err = None
  ∧ ((ChangedGroups dc existing = ∅ ∧ corrections = [] ∧ store' = store)
     ∨ (ChangedGroups dc existing ≠ ∅
        ∧ corrections
          = concat (iteration_corrections (fresh (dom store)) dc
                      (ChangedGroups dc existing) (GroupedByKey (Records dc))
                    <$> order)
        ∧ store'
          = fold_left (fun s key => <[fresh (dom store) := key]> s)
                      order store)).
Proof.
  unfold GenerateDomainCorrections. case_decide as Hsize.
  - intros [= <- <- <-]. split; [done|]. left.
    by apply map_size_empty_inv in Hsize.
  - destruct (range_keysToUpdate _ _ _ _ _ _ _) as [[cs st]|] eqn:Hrange;
      [|done].
    intros [= <- <- <-]. split; [done|]. right.
    split; [by apply map_size_non_empty_iff|].
    pose proof (range_keysToUpdate_returned _ _ _ _ _ _ _ _ Hrange) as Hone.
    rewrite (range_keysToUpdate_returns _ _ _ _ _ _ _ Hone) in Hrange.
    by injection Hrange as <- <-.
Qed.

(** X13.  A pass that returns returns a nil error, and its corrections
    carry the messages of the diff, each once: the messages of the keys
    in the order of the range, and those of a key in the order of the
    diff. *)
Theorem corrections_carry_every_message dc existing order store
    corrections err store' :
  GenerateDomainCorrections dc existing order store
  = Returned (corrections, err, store') →
  err = None
  ∧ Msg <$> corrections
    = concat ((fun key => ChangedGroups dc existing !!! key) <$> order).
Proof.
  intros [Herr [(Hempty & -> & _)|(_ & -> & _)]]%GenerateDomainCorrections_returned;
    (split; [done|]).
  - rewrite Hempty. clear. induction order as [|key order IH]; [done|].
    cbn [fmap list_fmap concat]. by rewrite lookup_total_empty, <- IH.
  - clear. induction order as [|key order IH]; [done|].
    cbn [fmap list_fmap concat].
    rewrite fmap_app, Msg_iteration_corrections. f_equal. exact IH.
Qed.

(** X14.  In a pass that returns, the corrections that carry an action
    other than the no-op are as many as the visited keys that have a
    message: one per such key, none for a key without message. *)
Theorem one_action_per_key dc existing order store corrections err store' :
  GenerateDomainCorrections dc existing order store
  = Returned (corrections, err, store') →
  length (filter (fun c => F c ≠ NoopClosure) corrections)
  = length (filter (fun key => ChangedGroups dc existing !!! key ≠ []) order).
Proof.
  intros [_ [(Hempty & -> & _)|(_ & -> & _)]]%GenerateDomainCorrections_returned.
  - rewrite Hempty. clear. induction order as [|key order IH]; [done|].
    rewrite filter_cons, decide_False; [exact IH|].
    rewrite lookup_total_empty. intros Hn. by apply Hn.
  - clear. induction order as [|key order IH]; [done|].
    cbn [fmap list_fmap concat].
    rewrite filter_app, length_app, actions_of_iteration, filter_cons, IH.
    by case_decide.
Qed.

(** X15.  A pass in which no key converts to more than one record set
    returns, for a key that the desired set holds and that has the
    messages [msg :: rest], one correction for [msg] carrying the upsert
    action over the record sets converted from that key's desired
    records, followed by one no-op correction for each message of
    [rest].  An upsert action holds its record sets by value: invoked in
    any store, it sends the upsert of the first of them to the zone and
    returns what the transport returns. *)
Theorem upsert_emits_one_upsert_then_noops dc existing order store :
  range_order (ChangedGroups dc existing) order →
  (∀ key rcs, key ∈ order →
              GroupedByKey (Records dc) !! key = Some rcs →
              length (recordsToNative rcs (Name dc)) ≤ 1) →
  (∃ (blocks : list (list Correction)) (store' : gmap loc RecordKey),
     GenerateDomainCorrections dc existing order store
     = Returned (concat blocks, None, store')
     ∧ Forall2
         (fun key block =>
            ∀ rcs msg rest,
              GroupedByKey (Records dc) !! key = Some rcs →
              ChangedGroups dc existing !! key = Some (msg :: rest) →
              block
              = {| Msg := msg;
                   F := UpsertClosure (recordsToNative rcs (Name dc)) dc |}
                :: ((fun m => {| Msg := m; F := NoopClosure |}) <$> rest))
         order blocks)
  ∧ (∀ rc ns dc' (store' : gmap loc RecordKey) (w : World Remote),
       invoke (UpsertClosure (rc :: ns) dc') store' w
       = Returned (call_upsertRR rc (Name dc') w)).
Proof.
  intros Horder Hone. split; [|done]. eexists _, _. split.
  - by apply GenerateDomainCorrections_returns.
  - apply Forall2_fmap_r, Forall_Forall2_diag, Forall_forall.
    intros key _ rcs msg rest Hd Hm. unfold iteration_corrections.
    by rewrite Hd, (lookup_total_correct _ _ _ Hm).
Qed.

Lemma range_order_singleton key (msgs : list string) :
  range_order {[key := msgs]} [key].
Proof. unfold range_order. by rewrite map_to_list_singleton. Qed.

(** X16.  The check of the conversion lets a conversion that yields no
    record set pass: for a single changed key in that case the pass
    returns, and the action of its first correction panics when it is
    invoked, on the index [0] of an empty slice. *)
Theorem empty_conversion_action_panics dc existing key rcs msg rest store :
  ChangedGroups dc existing = {[key := msg :: rest]} →
  GroupedByKey (Records dc) !! key = Some rcs →
  recordsToNative rcs (Name dc) = [] →
  range_order (ChangedGroups dc existing) [key]
  ∧ ∃ c store',
      GenerateDomainCorrections dc existing [key] store
      = Returned (c :: ((fun m => {| Msg := m; F := NoopClosure |}) <$> rest),
                  None, store')
      ∧ Msg c = msg
      ∧ ∀ (st : gmap loc RecordKey) (w : World Remote),
          invoke (F c) st w = Panicked "runtime error: index out of range [0] with length 0".
Proof.
  intros Hm Hd Hns. split; [rewrite Hm; apply range_order_singleton|].
  exists {| Msg := msg; F := UpsertClosure [] dc |},
         (<[fresh (dom store) := key]> store).
  split.
  - rewrite GenerateDomainCorrections_returns.
    + cbn [fmap list_fmap concat fold_left]. unfold iteration_corrections.
      rewrite Hd, Hm, lookup_total_singleton_eq, Hns, app_nil_r. done.
    + rewrite Hm. apply range_order_singleton.
    + intros k rcs' ->%list_elem_of_singleton Hd'.
      rewrite Hd in Hd'. injection Hd' as <-. rewrite Hns. simpl. lia.
  - done.
Qed.

(** X17.  When the diff reports a single key and the desired set does
    not hold it, the pass returns one correction per message, and the
    action of the first, invoked after the pass, sends the delete
    request of that very key: its type, its name translated to the
    subname, and no value. *)
Theorem single_deletion_targets_its_key dc existing key msg rest store :
  ChangedGroups dc existing = {[key := msg :: rest]} →
  GroupedByKey (Records dc) !! key = None →
  range_order (ChangedGroups dc existing) [key]
  ∧ ∃ c store',
      GenerateDomainCorrections dc existing [key] store
      = Returned (c :: ((fun m => {| Msg := m; F := NoopClosure |}) <$> rest),
                  None, store')
      ∧ Msg c = msg
      ∧ ∀ w : World Remote,
          invoke (F c) store' w
          = Returned (call_deleteRR (delete_request key dc) (Name dc) w).
Proof.
  intros Hm Hd. split; [rewrite Hm; apply range_order_singleton|].
  exists {| Msg := msg; F := DeleteClosure (fresh (dom store)) dc |},
         (<[fresh (dom store) := key]> store).
  split.
  - rewrite GenerateDomainCorrections_returns.
    + cbn [fmap list_fmap concat fold_left]. unfold iteration_corrections.
      rewrite Hd, Hm, lookup_total_singleton_eq, app_nil_r. done.
    + rewrite Hm. apply range_order_singleton.
    + intros k rcs' ->%list_elem_of_singleton Hd'.
      by rewrite Hd in Hd'.
  - split; [done|]. intros w. simpl. by rewrite lookup_total_insert_eq.
Qed.

(** X18.  In a pass that returns, every key that is absent from the
    desired set and has a message has a correction with its first
    message; the action of that correction, invoked after the pass,
    sends the delete request of the key the range visited last,
    whichever key it was emitted for. *)
Theorem pass_delete_actions_send_last_key dc existing init last store
    corrections err store' key msg rest :
  GenerateDomainCorrections dc existing (init ++ [last]) store
  = Returned (corrections, err, store') →
  key ∈ init ++ [last] →
  GroupedByKey (Records dc) !! key = None →
  ChangedGroups dc existing !! key = Some (msg :: rest) →
  ∃ c, c ∈ corrections ∧ Msg c = msg
       ∧ ∀ w : World Remote,
           invoke (F c) store' w
           = Returned (call_deleteRR (delete_request last dc) (Name dc) w).
Proof.
  intros Hret Hkey Hd Hm.
  apply GenerateDomainCorrections_returned in Hret
    as [_ [(Hempty & _)|(_ & -> & ->)]].
  { by rewrite Hempty, lookup_empty in Hm. }
  exists {| Msg := msg; F := DeleteClosure (fresh (dom store)) dc |}.
  split; [|split; [done|]].
  - apply list_elem_of_In, in_concat.
    eexists. split.
    + apply list_elem_of_In, list_elem_of_fmap. by exists key.
    + apply list_elem_of_In. unfold iteration_corrections.
      rewrite Hd, (lookup_total_correct _ _ _ Hm). apply list_elem_of_here.
  - intros w. simpl. by rewrite label_after_range.
Qed.

Lemma range_keeps_other_locations label (order : list RecordKey)
    (store : gmap loc RecordKey) l :
  l ≠ label →
  fold_left (fun s key => <[label := key]> s) order store !! l = store !! l.
Proof.
  intros Hne. revert store.
  induction order as [|key order IH]; intros store; [done|].
  cbn [fold_left]. rewrite IH. by apply lookup_insert_ne.
Qed.

(** X19.  A pass writes one variable of its own and no other: every
    location the store held before the pass holds the same key after
    it, so an action built by an earlier pass sends, after a later pass,
    what it would have sent before it. *)
Theorem earlier_actions_unaffected dc existing order store corrections err
    store' :
  GenerateDomainCorrections dc existing order store
  = Returned (corrections, err, store') →
  (∀ l, l ∈ dom store → store' !! l = store !! l)
  ∧ (∀ f (w : World Remote),
       (∀ l dc', f = DeleteClosure l dc' → l ∈ dom store) →
       invoke f store' w = invoke f store w).
Proof.
  intros Hret.
  assert (∀ l, l ∈ dom store → store' !! l = store !! l) as Hframe.
  { apply GenerateDomainCorrections_returned in Hret
      as [_ [(_ & _ & ->)|(_ & _ & ->)]]; [done|].
    intros l Hl. apply range_keeps_other_locations.
    intros ->. by apply (is_fresh (dom store)). }
  split; [exact Hframe|].
  intros f w Hdom. destruct f as [l dc'| |]; [|done|done].
  simpl. by rewrite !lookup_total_alt, Hframe by by eapply Hdom.
Qed.

Lemma range_keysToUpdate_panicked label dc keysToUpdate desiredRecords
    order store corrections msg :
  range_keysToUpdate label dc keysToUpdate desiredRecords order store
                     corrections = Panicked msg →
  msg = "we got more than one resource record to create / modify"
  ∧ ∃ key rcs, key ∈ order ∧ desiredRecords !! key = Some rcs
               ∧ 1 < length (recordsToNative rcs (Name dc)).
Proof.
  revert store corrections.
  induction order as [|key order IH]; intros store corrections; [done|].
  cbn [range_keysToUpdate].
  destruct (desiredRecords !! key) as [rcs|] eqn:Hd.
  - case_decide as Hlen.
    + intros [= <-]. split; [done|]. exists key, rcs.
      split; [apply list_elem_of_here|done].
    + intros (Hmsg & k & rcs' & Hk & Hrest)%IH. split; [done|].
      exists k, rcs'. split; [by apply list_elem_of_further|done].
  - intros (Hmsg & k & rcs' & Hk & Hrest)%IH. split; [done|].
    exists k, rcs'. split; [by apply list_elem_of_further|done].
Qed.

(** X20.  The panic of the conversion check has no other cause than
    that check: when the pass ends in the panic "we got more than one
    resource record to create / modify", some visited key that the
    desired set holds converts to more than one record set. *)
Theorem conversion_panic_has_a_cause dc existing order store :
  GenerateDomainCorrections dc existing order store
  = Panicked "we got more than one resource record to create / modify" →
  ∃ key rcs, key ∈ order
             ∧ GroupedByKey (Records dc) !! key = Some rcs
             ∧ 1 < length (recordsToNative rcs (Name dc)).
Proof.
  unfold GenerateDomainCorrections. case_decide; [done|].
  destruct (range_keysToUpdate _ _ _ _ _ _ _) as [[cs st]|m] eqn:Hrange;
    [done|].
  intros [= ->]. by eapply range_keysToUpdate_panicked.
Qed.

End Provider.

(** ** The provider on the example inputs *)

(** With the grouping and the conversion of the specification no key
    converts to more than one record set, so every pass returns. *)
Lemma GenerateDomainCorrections_spec_returns ChangedGroups trim dc existing
    order store :
  range_order (ChangedGroups dc existing) order →
  ∃ corrections store',
    GenerateDomainCorrections (recordsToNative_spec trim) ChangedGroups
      GroupedByKey_spec dc existing order store
    = Returned (corrections, None, store').
Proof.
  intros Horder. eexists _, _.
  apply GenerateDomainCorrections_returns; [done|].
  intros key rcs _ [Hne Hk]%GroupedByKey_spec_groups.
  by erewrite recordsToNative_spec_one.
Qed.

(** C1.  Two groups are deleted in one pass and the range visits
    [key_a], then [key_b].  The pass returns three corrections; the
    first is the one emitted for [key_a] and carries its delete action.
    Invoked after the pass, that action sends the delete request of
    [key_b]: subname ["b"], type TXT, not subname ["a"], type A. *)
Theorem delete_action_targets_last_visited_key :
  range_order two_deleted_groups [key_a; key_b]
  ∧ ∃ c1 c2 c3 store',
      GenerateDomainCorrections (recordsToNative_spec TrimDomainName_ref)
        (fun _ _ => two_deleted_groups) GroupedByKey_spec
        empty_config [] [key_a; key_b] ∅
      = Returned ([c1; c2; c3], None, store')
      ∧ Msg c1 = "DELETE A a.example.com 1.2.3.4"
      ∧ invoke writeRR_ref writeRR_ref TrimDomainName_ref (F c1) store'
               one_domain_world
        = Returned
            (None,
             {| remote := ["example.com"];
                calls := [CallDeleteRR {| Subname := "b"; Type_ := "TXT";
                                          RRecords := []; TTL := 0 |}
                                       "example.com"] |})
      ∧ delete_request TrimDomainName_ref key_a empty_config
        = {| Subname := "a"; Type_ := "A"; RRecords := []; TTL := 0 |}.
Proof.
  split.
  - unfold range_order. vm_compute. reflexivity.
  - eexists _, _, _, _. split; [vm_compute; reflexivity|].
    split; [reflexivity|]. split; vm_compute; reflexivity.
Qed.

(** C5.  The apex group and another group are deleted in one pass and
    the range visits [key_apex], then [key_b].  The record set built for
    the apex has the empty subname, as the label translation requires;
    but the delete action emitted for the apex, invoked after the pass,
    translates the key the loop visited last and sends subname ["b"]. *)
Theorem delete_subname_of_last_visited_key :
  range_order apex_and_b_deleted [key_apex; key_b]
  ∧ ∃ c1 c2 store',
      GenerateDomainCorrections (recordsToNative_spec TrimDomainName_ref)
        (fun _ _ => apex_and_b_deleted) GroupedByKey_spec
        empty_config [] [key_apex; key_b] ∅
      = Returned ([c1; c2], None, store')
      ∧ Msg c1 = "DELETE MX example.com 10 mail.example.net."
      ∧ Subname (delete_request TrimDomainName_ref key_apex empty_config) = ""
      ∧ invoke writeRR_ref writeRR_ref TrimDomainName_ref (F c1) store'
               one_domain_world
        = Returned
            (None,
             {| remote := ["example.com"];
                calls := [CallDeleteRR {| Subname := "b"; Type_ := "TXT";
                                          RRecords := []; TTL := 0 |}
                                       "example.com"] |}).
Proof.
  split.
  - unfold range_order. vm_compute. reflexivity.
  - eexists _, _, _. split; [vm_compute; reflexivity|].
    split; [reflexivity|]. split; vm_compute; reflexivity.
Qed.

(** On the two deleted groups the pass returns one block per key: for
    [key_a], which has two messages, the delete action and one no-op. *)
Lemma deletion_emits_one_delete_then_noops_witness :
  (∃ (blocks : list (list Correction)) (store' : gmap loc RecordKey),
     GenerateDomainCorrections (recordsToNative_spec TrimDomainName_ref)
       (fun _ _ => two_deleted_groups) GroupedByKey_spec
       empty_config [] [key_a; key_b] ∅
     = Returned (concat blocks, None, store')
     ∧ Forall2
         (fun key block =>
            GroupedByKey_spec (Records empty_config) !! key = None →
            ∀ msg rest,
              two_deleted_groups !! key = Some (msg :: rest) →
              block
              = {| Msg := msg;
                   F := DeleteClosure (fresh (dom (∅ : gmap loc RecordKey)))
                                      empty_config |}
                :: ((fun m => {| Msg := m; F := NoopClosure |}) <$> rest)
              ∧ length block = length (msg :: rest))
         [key_a; key_b] blocks)
  ∧ (∀ (store' : gmap loc RecordKey) (w : World (list string)),
       ∃ rc err r,
         rc = delete_request TrimDomainName_ref
                (store' !!! fresh (dom (∅ : gmap loc RecordKey))) empty_config
         ∧ RRecords rc = []
         ∧ writeRR_ref rc (Name empty_config) (remote w) = (err, r)
         ∧ invoke writeRR_ref writeRR_ref TrimDomainName_ref
                  (DeleteClosure (fresh (dom (∅ : gmap loc RecordKey)))
                                 empty_config) store' w
           = Returned
               (err,
                mkWorld r (calls w ++ [CallDeleteRR rc (Name empty_config)])))
  ∧ (∀ (store' : gmap loc RecordKey) (w : World (list string)),
       invoke writeRR_ref writeRR_ref TrimDomainName_ref NoopClosure store' w
       = Returned (None, w)).
Proof.
  apply (deletion_emits_one_delete_then_noops writeRR_ref writeRR_ref
           (recordsToNative_spec TrimDomainName_ref)
           (fun _ _ => two_deleted_groups) GroupedByKey_spec
           TrimDomainName_ref empty_config [] [key_a; key_b] ∅).
  - unfold range_order. vm_compute. reflexivity.
  - intros key rcs _ Hd. vm_compute in Hd. discriminate Hd.
Defined.

(** An NS record with TTL 300 leaves [PrepDesiredRecords] with TTL 3600:
    the three parts of the TTL rule, with NS records exempt from the
    floor, do not hold together on [ns_config]. *)
Lemma ns_record_ttl_is_raised :
  ¬ Forall2 (fun r k => (rType r ≠ "NS" → (rTTL r < 3600)%N → rTTL k = 3600%N)
                        ∧ ((3600 ≤ rTTL r)%N → rTTL k = rTTL r)
                        ∧ (rType r = "NS" → rTTL k = rTTL r))
            (filter (fun r => rType r ≠ "ALIAS") (Records ns_config))
            (Records (PrepDesiredRecords Records ns_config []).1).
Proof.
  intros Hclaim. vm_compute in Hclaim.
  apply Forall2_cons_1 in Hclaim as [(_ & _ & Hns) _].
  specialize (Hns eq_refl). discriminate Hns.
Qed.

Lemma PrepDesiredRecords_ttl_floor_witness :
  ∃ new : list string,
    (PrepDesiredRecords Records mixed_config []).2 = [] ++ new
    ∧ Forall2 (fun r k => rType k = rType r
                          ∧ ((rTTL r < 3600)%N → rTTL k = 3600%N)
                          ∧ ((3600 ≤ rTTL r)%N → rTTL k = rTTL r))
              (filter (fun r => rType r ≠ "ALIAS") (Records mixed_config))
              (Records (PrepDesiredRecords Records mixed_config []).1)
    ∧ Forall2 (fun p k => ((rTTL p < 3600)%N → k = set_TTL p 3600)
                          ∧ ((3600 ≤ rTTL p)%N → k = p))
              (filter (fun p => rType p ≠ "ALIAS") (Records mixed_config))
              (Records (PrepDesiredRecords Records mixed_config []).1)
    ∧ (∀ p, p ∈ Records mixed_config → rType p ≠ "ALIAS" → rType p ≠ "NS" →
            (rTTL p < 3600)%N → ttl_warning p ∈ new)
    ∧ length (filter (fun w => w ≠ alias_warning) new)
      = length (filter (fun r => rType r ≠ "ALIAS" ∧ rType r ≠ "NS"
                                 ∧ (rTTL r < 3600)%N) (Records mixed_config)).
Proof.
  apply (PrepDesiredRecords_ttl_floor Records mixed_config []).
  simpl. repeat constructor.
Defined.

Lemma PrepDesiredRecords_drops_alias_witness :
  ∃ new : list string,
    (PrepDesiredRecords Records mixed_config []).2 = [] ++ new
    ∧ (∀ k, k ∈ Records (PrepDesiredRecords Records mixed_config []).1 →
            rType k ≠ "ALIAS")
    ∧ length
        (filter
           (fun w => w = "deSEC does not support alias records"
                         +:+ String (Ascii.Ascii false true false true
                                                 false false false false) "")
           new)
      = length (filter (fun r => rType r = "ALIAS") (Records mixed_config))
    ∧ Forall2 (fun r k => rType k = rType r)
              (filter (fun r => rType r ≠ "ALIAS") (Records mixed_config))
              (Records (PrepDesiredRecords Records mixed_config []).1)
    ∧ Forall2 (fun p k => k = p ∨ k = set_TTL p 3600)
              (filter (fun p => rType p ≠ "ALIAS") (Records mixed_config))
              (Records (PrepDesiredRecords Records mixed_config []).1).
Proof.
  apply (PrepDesiredRecords_drops_alias Records mixed_config []).
  simpl. repeat constructor.
Defined.

(** Two zones that drop different ALIAS records print the same warnings:
    the warning does not tell which record was dropped. *)
Lemma alias_warning_names_no_record :
  ¬ ((PrepDesiredRecords Records alias_config_a []).2
     = (PrepDesiredRecords Records alias_config_b []).2 →
     Records alias_config_a = Records alias_config_b).
Proof.
  intros Hidentifies.
  assert ((PrepDesiredRecords Records alias_config_a []).2
          = (PrepDesiredRecords Records alias_config_b []).2) as Hsame
    by (vm_compute; reflexivity).
  specialize (Hidentifies Hsame). discriminate Hidentifies.
Qed.

(** The two values of [key_a] convert to one record set; a converter
    that yields one record set per value makes the pass panic. *)
Lemma conversion_yields_one_or_pass_panics_witness :
  length (recordsToNative_spec TrimDomainName_ref
            (Records two_values_config) (Name two_values_config)) = 1
  ∧ GenerateDomainCorrections recordsToNative_split
      (fun _ _ => one_created_group) GroupedByKey_spec
      two_values_config [] [key_a] ∅
    = Panicked "we got more than one resource record to create / modify".
Proof.
  pose proof (conversion_yields_one_or_pass_panics recordsToNative_split
                (fun _ _ => one_created_group) GroupedByKey_spec
                TrimDomainName_ref) as [Hone Hpanic].
  split.
  - apply (Hone two_values_config key_a). vm_compute. reflexivity.
  - apply (Hpanic two_values_config [] [key_a] ∅ key_a
                  (Records two_values_config)).
    + unfold range_order. vm_compute. reflexivity.
    + vm_compute. eexists. reflexivity.
    + vm_compute. reflexivity.
    + vm_compute. lia.
Defined.

(** The record set built for the apex has the empty subname. *)
Lemma delete_request_apex_example :
  Subname (delete_request TrimDomainName_ref key_apex empty_config) = ""
  ∧ Subname (delete_request TrimDomainName_ref key_a empty_config) = "a".
Proof.
  pose proof (delete_subname_translation writeRR_ref writeRR_ref
                TrimDomainName_ref) as [Htranslate _].
  split.
  - apply (Htranslate key_apex empty_config). vm_compute. reflexivity.
  - apply (Htranslate key_a empty_config). vm_compute. discriminate.
Qed.

Lemma no_changed_groups_no_corrections_witness :
  GenerateDomainCorrections (recordsToNative_spec TrimDomainName_ref)
    (fun _ _ => ∅) GroupedByKey_spec two_values_config
    (Records two_values_config) [] ∅
  = Returned ([], None, ∅).
Proof.
  apply (no_changed_groups_no_corrections
           (recordsToNative_spec TrimDomainName_ref) (fun _ _ => ∅)
           GroupedByKey_spec two_values_config (Records two_values_config)
           [] ∅).
  reflexivity.
Defined.

Lemma NewDeSec_missing_token_witness :
  NewDeSec fetchDomainList_ref ∅ one_domain_world
  = (None, Some "missing deSEC auth-token", one_domain_world)
  ∧ NewDeSec fetchDomainList_ref {["auth-token" := ""]} one_domain_world
    = (None, Some "missing deSEC auth-token", one_domain_world).
Proof.
  split.
  - apply (NewDeSec_missing_token fetchDomainList_ref ∅ one_domain_world).
    left. reflexivity.
  - apply (NewDeSec_missing_token fetchDomainList_ref
             {["auth-token" := ""]} one_domain_world).
    right. vm_compute. reflexivity.
Defined.

(** A domain the remote side holds is left alone; a refused creation is
    reported as it is; and once a creation has succeeded a second call
    only refreshes the index. *)
Lemma EnsureDomainExists_gate_witness :
  EnsureDomainExists fetchDomainList_ref createDomain_ref
    (mkApi "token" ∅) "example.com" one_domain_world
  = (mkApi "token" (list_to_map [("example.com", 3600%N)]), None,
     {| remote := ["example.com"]; calls := [CallFetchDomainList] |})
  ∧ EnsureDomainExists fetchDomainList_ref createDomain_refusing
      (mkApi "token" ∅) "new.org" one_domain_world
    = (mkApi "token" (list_to_map [("example.com", 3600%N)]),
       Some "403 Forbidden",
       {| remote := ["example.com"];
          calls := [CallFetchDomainList; CallCreateDomain "new.org"] |})
  ∧ EnsureDomainExists fetchDomainList_ref createDomain_ref
      (mkApi "token" (list_to_map [("example.com", 3600%N)])) "new.org"
      {| remote := ["new.org"; "example.com"];
         calls := [CallFetchDomainList; CallCreateDomain "new.org"] |}
    = (mkApi "token"
         (list_to_map [("new.org", 3600%N); ("example.com", 3600%N)]),
       None,
       {| remote := ["new.org"; "example.com"];
          calls := [CallFetchDomainList; CallCreateDomain "new.org";
                    CallFetchDomainList] |}).
Proof.
  split; [|split].
  - apply (proj1 (EnsureDomainExists_gate fetchDomainList_ref
                    createDomain_ref (mkApi "token" ∅) "example.com"
                    one_domain_world _ _ eq_refl)).
    vm_compute. eexists. reflexivity.
  - apply (proj1 (proj2 (EnsureDomainExists_gate fetchDomainList_ref
                           createDomain_refusing (mkApi "token" ∅) "new.org"
                           one_domain_world _ _ eq_refl)));
      vm_compute; reflexivity.
  - apply (proj2 (proj2 (EnsureDomainExists_gate fetchDomainList_ref
                           createDomain_ref (mkApi "token" ∅) "new.org"
                           one_domain_world _ _ eq_refl))
             (mkApi "token" (list_to_map [("example.com", 3600%N)])) None
             {| remote := ["new.org"; "example.com"];
                calls := [CallFetchDomainList; CallCreateDomain "new.org"] |}
             (list_to_map [("new.org", 3600%N); ("example.com", 3600%N)])
             ["new.org"; "example.com"]).
    + vm_compute. reflexivity.
    + reflexivity.
    + vm_compute. eexists. reflexivity.
Defined.

(** On a zone that was read, the pass runs on the post-processed
    records. *)
Lemma PrepFoundRecords_identity_witness :
  PrepFoundRecords (Records two_values_config) = Records two_values_config
  ∧ GetDomainCorrections getRecords_ref (fun _ _ => [])
      (recordsToNative_spec TrimDomainName_ref) Records (fun recs => recs)
      (fun _ _ => one_created_group) GroupedByKey_spec
      two_values_config [key_a] ∅ [] one_domain_world
    = (GenerateDomainCorrections (recordsToNative_spec TrimDomainName_ref)
         (fun _ _ => one_created_group) GroupedByKey_spec
         (PrepDesiredRecords Records two_values_config []).1 [] [key_a] ∅,
       (PrepDesiredRecords Records two_values_config []).2,
       {| remote := ["example.com"];
          calls := [CallGetRecords "example.com"] |}).
Proof.
  pose proof (PrepFoundRecords_identity getRecords_ref (fun _ _ => [])
                (recordsToNative_spec TrimDomainName_ref) Records
                (fun recs => recs) (fun _ _ => one_created_group)
                GroupedByKey_spec) as [Hid Hplan].
  split.
  - apply Hid.
  - apply (Hplan two_values_config [key_a] ∅ [] one_domain_world).
    vm_compute. reflexivity.
Defined.

(** ** The further properties on the example inputs *)

Lemma NewDeSec_with_token_witness :
  NewDeSec fetchDomainList_ref {["auth-token" := "secret"]} one_domain_world
  = (Some (mkApi "secret" (list_to_map [("example.com", 3600%N)])), None,
     {| remote := ["example.com"]; calls := [CallFetchDomainList] |})
  ∧ NewDeSec fetchDomainList_failing {["auth-token" := "secret"]}
      one_domain_world
    = (None, Some "401 Unauthorized",
       {| remote := ["example.com"]; calls := [CallFetchDomainList] |}).
Proof.
  split.
  - apply (NewDeSec_with_token fetchDomainList_ref
             {["auth-token" := "secret"]} one_domain_world "secret"
             (list_to_map [("example.com", 3600%N)]) None ["example.com"]).
    + vm_compute. reflexivity.
    + vm_compute. discriminate.
    + reflexivity.
  - apply (NewDeSec_with_token fetchDomainList_failing
             {["auth-token" := "secret"]} one_domain_world "secret" ∅
             (Some "401 Unauthorized") ["example.com"]).
    + vm_compute. reflexivity.
    + vm_compute. discriminate.
    + reflexivity.
Defined.

Lemma EnsureDomainExists_refresh_failure_witness :
  EnsureDomainExists fetchDomainList_failing createDomain_ref
    (mkApi "token" ∅) "new.org" one_domain_world
  = (mkApi "token" ∅, Some "401 Unauthorized",
     {| remote := ["example.com"]; calls := [CallFetchDomainList] |}).
Proof.
  apply (EnsureDomainExists_refresh_failure fetchDomainList_failing
           createDomain_ref (mkApi "token" ∅) "new.org" one_domain_world
           ∅ "401 Unauthorized" ["example.com"]).
  reflexivity.
Defined.

Lemma GetZoneRecords_failure_witness :
  GetZoneRecords getRecords_failing nativeToRecords_ref "example.com"
    one_domain_world
  = ([], Some "404 Not Found",
     {| remote := ["example.com"];
        calls := [CallGetRecords "example.com"] |}).
Proof.
  apply (GetZoneRecords_failure getRecords_failing nativeToRecords_ref
           "example.com" one_domain_world [] "404 Not Found"
           ["example.com"]).
  reflexivity.
Defined.

(** The zone of two record sets, with two values and one value, is read
    as three records: the two of the apex, then the one of [www]. *)
Lemma GetZoneRecords_one_record_per_value_witness :
  ∃ existing,
    GetZoneRecords getRecords_two_sets nativeToRecords_ref "example.com"
      one_domain_world
    = (existing, None,
       {| remote := ["example.com"];
          calls := [CallGetRecords "example.com"] |})
    ∧ existing
      = [ {| rNameFQDN := "example.com"; rType := "A"; rTTL := 3600;
             rTarget := "1.2.3.4" |};
          {| rNameFQDN := "example.com"; rType := "A"; rTTL := 3600;
             rTarget := "5.6.7.8" |};
          {| rNameFQDN := "www.example.com"; rType := "TXT"; rTTL := 7200;
             rTarget := "hello" |} ]
    ∧ length existing = 3.
Proof.
  destruct (GetZoneRecords_one_record_per_value getRecords_two_sets
              nativeToRecords_ref "example.com" one_domain_world
              (getRecords_two_sets "example.com" ["example.com"]).1.1
              ["example.com"] eq_refl)
    as (existing & Hzone & Hlist & Hlen & _).
  exists existing. split; [exact Hzone|]. split; [exact Hlist|].
  apply Hlen. intros rr _. unfold nativeToRecords_ref. apply length_fmap.
Defined.

Lemma GetDomainCorrections_read_failure_witness :
  GetDomainCorrections getRecords_failing nativeToRecords_ref
    (recordsToNative_spec TrimDomainName_ref) Records (fun recs => recs)
    (fun _ _ => key_a_changed) GroupedByKey_spec
    mixed_config [key_a] ∅ [] one_domain_world
  = (Returned ([], Some "404 Not Found", ∅), [],
     {| remote := ["example.com"];
        calls := [CallGetRecords "example.com"] |}).
Proof.
  apply (GetDomainCorrections_read_failure getRecords_failing
           nativeToRecords_ref (recordsToNative_spec TrimDomainName_ref)
           Records (fun recs => recs) (fun _ _ => key_a_changed)
           GroupedByKey_spec mixed_config [key_a] ∅ [] one_domain_world
           {| remote := ["example.com"];
              calls := [CallGetRecords "example.com"] |}
           [] "404 Not Found").
  reflexivity.
Defined.

Lemma PrepDesiredRecords_compliant_unchanged_witness :
  PrepDesiredRecords Records two_values_config []
  = ({| Name := Name two_values_config;
        Records := Records two_values_config |}, []).
Proof.
  apply (PrepDesiredRecords_compliant_unchanged Records two_values_config []).
  apply Forall_forall. simpl.
  repeat constructor; first [discriminate | simpl; lia].
Defined.

Lemma PrepDesiredRecords_idempotent_witness :
  PrepDesiredRecords Records (PrepDesiredRecords Records mixed_config []).1
                     (PrepDesiredRecords Records mixed_config []).2
  = PrepDesiredRecords Records mixed_config [].
Proof.
  apply (PrepDesiredRecords_idempotent Records mixed_config []).
  reflexivity.
Defined.

Lemma corrections_carry_every_message_witness :
  ∃ corrections err store',
    GenerateDomainCorrections (recordsToNative_spec TrimDomainName_ref)
      (fun _ _ => two_deleted_groups) GroupedByKey_spec
      empty_config [] [key_a; key_b] ∅
    = Returned (corrections, err, store')
    ∧ err = None
    ∧ Msg <$> corrections
      = ["DELETE A a.example.com 1.2.3.4"; "DELETE A a.example.com 5.6.7.8";
         "DELETE TXT b.example.com hello"].
Proof.
  eexists _, _, _. split; [vm_compute; reflexivity|].
  eapply (corrections_carry_every_message
           (recordsToNative_spec TrimDomainName_ref)
           (fun _ _ => two_deleted_groups) GroupedByKey_spec
           empty_config [] [key_a; key_b] ∅).
  vm_compute. reflexivity.
Defined.

Lemma one_action_per_key_witness :
  ∃ corrections err store',
    GenerateDomainCorrections (recordsToNative_spec TrimDomainName_ref)
      (fun _ _ => two_deleted_groups) GroupedByKey_spec
      empty_config [] [key_a; key_b] ∅
    = Returned (corrections, err, store')
    ∧ length corrections = 3
    ∧ length (filter (fun c => F c ≠ NoopClosure) corrections) = 2.
Proof.
  eexists _, _, _. split; [vm_compute; reflexivity|].
  split; [reflexivity|].
  eapply (one_action_per_key
           (recordsToNative_spec TrimDomainName_ref)
           (fun _ _ => two_deleted_groups) GroupedByKey_spec
           empty_config [] [key_a; key_b] ∅).
  vm_compute. reflexivity.
Defined.

(** The two desired values of [key_a] are sent as one record set by the
    action of the first of its two corrections. *)
Lemma upsert_emits_one_upsert_then_noops_witness :
  (∃ (blocks : list (list Correction)) (store' : gmap loc RecordKey),
     GenerateDomainCorrections (recordsToNative_spec TrimDomainName_ref)
       (fun _ _ => key_a_changed) GroupedByKey_spec
       two_values_config [] [key_a] ∅
     = Returned (concat blocks, None, store')
     ∧ Forall2
         (fun key block =>
            ∀ rcs msg rest,
              GroupedByKey_spec (Records two_values_config) !! key = Some rcs →
              key_a_changed !! key = Some (msg :: rest) →
              block
              = {| Msg := msg;
                   F := UpsertClosure
                          (recordsToNative_spec TrimDomainName_ref rcs
                             (Name two_values_config))
                          two_values_config |}
                :: ((fun m => {| Msg := m; F := NoopClosure |}) <$> rest))
         [key_a] blocks)
  ∧ (∀ rc ns dc' (store' : gmap loc RecordKey) (w : World (list string)),
       invoke writeRR_ref writeRR_ref TrimDomainName_ref
              (UpsertClosure (rc :: ns) dc') store' w
       = Returned (call_upsertRR writeRR_ref rc (Name dc') w)).
Proof.
  apply (upsert_emits_one_upsert_then_noops writeRR_ref writeRR_ref
           (recordsToNative_spec TrimDomainName_ref)
           (fun _ _ => key_a_changed) GroupedByKey_spec TrimDomainName_ref
           two_values_config [] [key_a] ∅).
  - unfold range_order. vm_compute. reflexivity.
  - intros key rcs Hkey Hd. apply list_elem_of_singleton in Hkey.
    rewrite Hkey in Hd. vm_compute in Hd. injection Hd as <-.
    vm_compute. lia.
Defined.

Lemma empty_conversion_action_panics_witness :
  range_order key_a_changed [key_a]
  ∧ ∃ c store',
      GenerateDomainCorrections recordsToNative_none
        (fun _ _ => key_a_changed) GroupedByKey_spec
        two_values_config [] [key_a] ∅
      = Returned (c :: ((fun m => {| Msg := m; F := NoopClosure |})
                          <$> ["CREATE A a.example.com 5.6.7.8"]),
                  None, store')
      ∧ Msg c = "MODIFY A a.example.com 1.2.3.4"
      ∧ ∀ (st : gmap loc RecordKey) (w : World (list string)),
          invoke writeRR_ref writeRR_ref TrimDomainName_ref (F c) st w
          = Panicked "runtime error: index out of range [0] with length 0".
Proof.
  apply (empty_conversion_action_panics writeRR_ref writeRR_ref
           recordsToNative_none (fun _ _ => key_a_changed) GroupedByKey_spec
           TrimDomainName_ref two_values_config [] key_a
           (Records two_values_config)
           "MODIFY A a.example.com 1.2.3.4"
           ["CREATE A a.example.com 5.6.7.8"] ∅).
  - reflexivity.
  - vm_compute. reflexivity.
  - reflexivity.
Defined.

Lemma single_deletion_targets_its_key_witness :
  range_order apex_deleted [key_apex]
  ∧ ∃ c store',
      GenerateDomainCorrections (recordsToNative_spec TrimDomainName_ref)
        (fun _ _ => apex_deleted) GroupedByKey_spec
        empty_config [] [key_apex] ∅
      = Returned (c :: ((fun m => {| Msg := m; F := NoopClosure |})
                          <$> ["DELETE MX example.com 20 backup.example.net."]),
                  None, store')
      ∧ Msg c = "DELETE MX example.com 10 mail.example.net."
      ∧ ∀ w : World (list string),
          invoke writeRR_ref writeRR_ref TrimDomainName_ref (F c) store' w
          = Returned (call_deleteRR writeRR_ref
                        (delete_request TrimDomainName_ref key_apex
                                        empty_config)
                        (Name empty_config) w).
Proof.
  apply (single_deletion_targets_its_key writeRR_ref writeRR_ref
           (recordsToNative_spec TrimDomainName_ref)
           (fun _ _ => apex_deleted) GroupedByKey_spec TrimDomainName_ref
           empty_config [] key_apex
           "DELETE MX example.com 10 mail.example.net."
           ["DELETE MX example.com 20 backup.example.net."] ∅).
  - reflexivity.
  - vm_compute. reflexivity.
Defined.

Lemma pass_delete_actions_send_last_key_witness :
  ∃ corrections err store',
    GenerateDomainCorrections (recordsToNative_spec TrimDomainName_ref)
      (fun _ _ => two_deleted_groups) GroupedByKey_spec
      empty_config [] ([key_a] ++ [key_b]) ∅
    = Returned (corrections, err, store')
    ∧ ∃ c, c ∈ corrections
           ∧ Msg c = "DELETE A a.example.com 1.2.3.4"
           ∧ ∀ w : World (list string),
               invoke writeRR_ref writeRR_ref TrimDomainName_ref (F c)
                      store' w
               = Returned (call_deleteRR writeRR_ref
                             (delete_request TrimDomainName_ref key_b
                                             empty_config)
                             (Name empty_config) w).
Proof.
  eexists _, _, _. split; [vm_compute; reflexivity|].
  eapply (pass_delete_actions_send_last_key writeRR_ref writeRR_ref
            (recordsToNative_spec TrimDomainName_ref)
            (fun _ _ => two_deleted_groups) GroupedByKey_spec
            TrimDomainName_ref empty_config [] [key_a] key_b ∅ _ _ _ key_a
            "DELETE A a.example.com 1.2.3.4"
            ["DELETE A a.example.com 5.6.7.8"]).
  - vm_compute. reflexivity.
  - simpl. constructor.
  - vm_compute. reflexivity.
  - vm_compute. reflexivity.
Defined.

(** A pass over the two deleted groups leaves the variable of an earlier
    pass over the apex as it was. *)
Lemma earlier_actions_unaffected_witness :
  ∃ corrections err store',
    GenerateDomainCorrections (recordsToNative_spec TrimDomainName_ref)
      (fun _ _ => two_deleted_groups) GroupedByKey_spec
      empty_config [] [key_a; key_b] (<[1%positive := key_apex]> ∅)
    = Returned (corrections, err, store')
    ∧ (∀ l, l ∈ dom (<[1%positive := key_apex]> ∅ : gmap loc RecordKey) →
            store' !! l
            = (<[1%positive := key_apex]> ∅ : gmap loc RecordKey) !! l)
    ∧ (∀ f (w : World (list string)),
         (∀ l dc', f = DeleteClosure l dc' →
                   l ∈ dom (<[1%positive := key_apex]> ∅
                              : gmap loc RecordKey)) →
         invoke writeRR_ref writeRR_ref TrimDomainName_ref f store' w
         = invoke writeRR_ref writeRR_ref TrimDomainName_ref f
                  (<[1%positive := key_apex]> ∅) w).
Proof.
  eexists _, _, _. split; [vm_compute; reflexivity|].
  eapply (earlier_actions_unaffected writeRR_ref writeRR_ref
            (recordsToNative_spec TrimDomainName_ref)
            (fun _ _ => two_deleted_groups) GroupedByKey_spec
            TrimDomainName_ref empty_config [] [key_a; key_b]
            (<[1%positive := key_apex]> ∅)).
  vm_compute. reflexivity.
Defined.

Lemma conversion_panic_has_a_cause_witness :
  ∃ key rcs, key ∈ [key_a]
             ∧ GroupedByKey_spec (Records two_values_config) !! key
               = Some rcs
             ∧ 1 < length (recordsToNative_split rcs
                             (Name two_values_config)).
Proof.
  apply (conversion_panic_has_a_cause recordsToNative_split
           (fun _ _ => one_created_group) GroupedByKey_spec
           two_values_config [] [key_a] ∅).
  vm_compute. reflexivity.
Defined.
